(** * Gateway streaming facade and runtime shell of jina

    A shallow embedding of
    - [jina/serve/runtimes/gateway/streamer.py] ([GatewayStreamer]) and
    - [jina/serve/runtimes/asyncio.py] ([AsyncNewLoopRuntime]),
    followed by the properties of the facade that the specification states.

    Python values are embedded as follows: a sequence of documents is a
    [list], a dictionary with string keys whose iteration order is irrelevant
    is a [gmap string _], a dictionary that is iterated is an association
    list, a call that may raise returns a [result], and a coroutine whose
    effects on collaborators matter threads an explicit state. *)

From Stdlib Require Import ZArith Lia Ascii.
From stdpp Require Import base list strings gmap pretty.

Open Scope Z_scope.

(** ** Exceptions and results *)

Module Py.

(** The exception classes that the two modules raise, catch or let
    through.  Since Python 3.8 [asyncio.CancelledError] derives from
    [BaseException] and is therefore not matched by [except Exception]. *)
Inductive exn : Type :=
| OSError (msg : string)
| ValueError (msg : string)
| JSONDecodeError
| TypeError (msg : string)
| RpcError
| CancelledError
| AttributeError (msg : string).

(** [isinstance(e, Exception)] *)
Definition is_Exception (e : exn) : bool :=
  match e with
  | CancelledError => false
  | _ => true
  end.

(** [isinstance(e, grpc.RpcError)] *)
Definition is_RpcError (e : exn) : bool :=
  match e with
  | RpcError => true
  | _ => false
  end.

(** [isinstance(e, asyncio.CancelledError)] *)
Definition is_CancelledError (e : exn) : bool :=
  match e with
  | CancelledError => true
  | _ => false
  end.

(** The outcome of a call: a returned value or a raised exception. *)
Inductive result (A : Type) : Type :=
| Return (a : A)
| Raise (e : exn).
Arguments Return {A} a.
Arguments Raise {A} e.

Definition bind {A B} (r : result A) (k : A -> result B) : result B :=
  match r with
  | Return a => k a
  | Raise e => Raise e
  end.

(** [try: body / except <handles>: handler] around a call without effects
    on the modelled state. *)
Definition try_ {A} (body : result A) (handles : exn -> bool) (handler : result A)
  : result A :=
  match body with
  | Raise e => if handles e then handler else Raise e
  | Return a => Return a
  end.

(** A coroutine or method with effects on a state [S]: it returns or raises,
    and the state it leaves behind is kept either way. *)
Definition io (S A : Type) : Type := S -> result A * S.

Definition io_ret {S A} (a : A) : io S A := fun s => (Return a, s).

Definition io_bind' {S A B} (c : io S A) (k : A -> io S B) : io S B :=
  fun s =>
    match c s with
    | (Return a, s') => k a s'
    | (Raise e, s') => (Raise e, s')
    end.

(** [raise e] *)
Definition io_raise {S A} (e : exn) : io S A := fun s => (Raise e, s).

(** [try: body / except <handles> as ex: handler ex] *)
Definition try_except {S A} (body : io S A) (handles : exn -> bool)
    (handler : exn -> io S A) : io S A :=
  fun s =>
    match body s with
    | (Raise e, s') => if handles e then handler e s' else (Raise e, s')
    | (Return a, s') => (Return a, s')
    end.

(** A state update that cannot fail. *)
Definition io_modify {S} (f : S -> S) : io S unit := fun s => (Return tt, f s).

End Py.

Import Py.

(** [x ← c; k] runs [c] and, unless it raised, continues with [k]. *)
#[global] Instance result_ret : MRet result := fun _ a => Return a.
#[global] Instance result_bind : MBind result := fun _ _ k r => Py.bind r k.
#[global] Instance io_mret {S} : MRet (io S) := fun _ a => io_ret a.
#[global] Instance io_mbind {S} : MBind (io S) := fun _ _ k c => io_bind' c k.

(** ** JSON values and a model of the [json] module *)

Module Json.

(** The values [json.dumps] accepts and [json.loads] produces; a float is
    kept by its decimal representation. *)
#[warnings="-register-all"]
Inductive json : Type :=
| JNull
| JBool (b : bool)
| JInt (z : Z)
| JFloat (repr : string)
| JStr (s : string)
| JList (l : list json)
| JDict (items : list (string * json)).

(** The rest of this module is a model of [json.dumps] and [json.loads] with
    their default arguments, for strings of printable ASCII characters,
    tabs and line breaks.  The facade is stated over any pair of a
    serializer and a parser; this one instantiates them in the scenarios. *)

Definition dquote : ascii := Ascii.ascii_of_nat 34.
Definition backslash : ascii := Ascii.ascii_of_nat 92.
Definition newline : ascii := Ascii.ascii_of_nat 10.
Definition tab : ascii := Ascii.ascii_of_nat 9.
Definition cr : ascii := Ascii.ascii_of_nat 13.

Definition printable (c : ascii) : bool :=
  let n := Ascii.nat_of_ascii c in (32 <=? n)%nat && (n <? 127)%nat.

(** The body of a string literal, between the quotes. *)
Fixpoint escape (s : string) : option string :=
  match s with
  | EmptyString => Some EmptyString
  | String c s' =>
      rest ← escape s';
      if Ascii.eqb c dquote then Some (String backslash (String dquote rest))
      else if Ascii.eqb c backslash then Some (String backslash (String backslash rest))
      else if Ascii.eqb c newline then Some (String backslash (String "n" rest))
      else if Ascii.eqb c tab then Some (String backslash (String "t" rest))
      else if Ascii.eqb c cr then Some (String backslash (String "r" rest))
      else if printable c then Some (String c rest)
      else None
  end.

Definition quoted (s : string) : option string :=
  body ← escape s; Some (String dquote body +:+ String dquote EmptyString).

(** [', '.join(parts)] *)
Fixpoint join (parts : list string) : string :=
  match parts with
  | [] => EmptyString
  | [p] => p
  | p :: parts' => p +:+ ", " +:+ join parts'
  end.

Fixpoint encode (v : json) : option string :=
  match v with
  | JNull => Some "null"
  | JBool true => Some "true"
  | JBool false => Some "false"
  | JInt z => Some (pretty z)
  | JFloat repr => Some repr
  | JStr s => quoted s
  | JList l =>
      parts ← (fix go (l : list json) : option (list string) :=
                 match l with
                 | [] => Some []
                 | x :: l' => p ← encode x; ps ← go l'; Some (p :: ps)
                 end) l;
      Some ("[" +:+ join parts +:+ "]")
  | JDict items =>
      parts ← (fix go (l : list (string * json)) : option (list string) :=
                 match l with
                 | [] => Some []
                 | (k, x) :: l' =>
                     q ← quoted k; p ← encode x; ps ← go l';
                     Some ((q +:+ ": " +:+ p) :: ps)
                 end) items;
      Some ("{" +:+ join parts +:+ "}")
  end.

Definition dumps (v : json) : result string :=
  match encode v with
  | Some s => Return s
  | None => Raise (ValueError "character outside the modelled fragment")
  end.

Definition is_ws (c : ascii) : bool :=
  Ascii.eqb c " " || Ascii.eqb c newline || Ascii.eqb c tab || Ascii.eqb c cr.

Fixpoint skip_ws (s : string) : string :=
  match s with
  | String c s' => if is_ws c then skip_ws s' else s
  | EmptyString => s
  end.

(** [s] without its prefix [p], if it has that prefix. *)
Fixpoint strip (p s : string) : option string :=
  match p, s with
  | EmptyString, _ => Some s
  | String a p', String b s' => if Ascii.eqb a b then strip p' s' else None
  | String _ _, EmptyString => None
  end.

(** A string literal after its opening quote: the string and what follows
    the closing quote. *)
Fixpoint decode_string (s : string) : option (string * string) :=
  match s with
  | EmptyString => None
  | String c s' =>
      if Ascii.eqb c dquote then Some (EmptyString, s')
      else if Ascii.eqb c backslash then
        match s' with
        | String e s'' =>
            c' ← (if Ascii.eqb e dquote then Some dquote
                  else if Ascii.eqb e backslash then Some backslash
                  else if Ascii.eqb e "n" then Some newline
                  else if Ascii.eqb e "t" then Some tab
                  else if Ascii.eqb e "r" then Some cr
                  else if Ascii.eqb e "/" then Some "/"%char
                  else None);
            '(str, rest) ← decode_string s'';
            Some (String c' str, rest)
        | EmptyString => None
        end
      else if printable c then
        '(str, rest) ← decode_string s';
        Some (String c str, rest)
      else None
  end.

Definition is_digit (c : ascii) : bool :=
  let n := Ascii.nat_of_ascii c in (48 <=? n)%nat && (n <=? 57)%nat.

Definition is_number_char (c : ascii) : bool :=
  is_digit c || Ascii.eqb c "-" || Ascii.eqb c "+" || Ascii.eqb c "."
  || Ascii.eqb c "e" || Ascii.eqb c "E".

(** The longest prefix of number characters and what follows it. *)
Fixpoint span_number (s : string) : string * string :=
  match s with
  | String c s' =>
      if is_number_char c
      then let '(num, rest) := span_number s' in (String c num, rest)
      else (EmptyString, s)
  | EmptyString => (EmptyString, EmptyString)
  end.

Fixpoint digits_value (s : string) (acc : Z) : option Z :=
  match s with
  | EmptyString => Some acc
  | String c s' =>
      if is_digit c
      then digits_value s' (10 * acc + Z.of_nat (Ascii.nat_of_ascii c - 48))
      else None
  end.

Definition decode_number (num : string) : option json :=
  match num with
  | EmptyString => None
  | String c digits =>
      if Ascii.eqb c "-" then
        match digits with
        | EmptyString => None
        | _ => match digits_value digits 0 with
               | Some z => Some (JInt (- z))
               | None => Some (JFloat num)
               end
        end
      else match digits_value num 0 with
           | Some z => Some (JInt z)
           | None => Some (JFloat num)
           end
  end.

(** A value, the elements of a list after the bracket, and the members of an
    object after the brace; each call uses one unit of [fuel]. *)
Fixpoint decode (fuel : nat) (s : string) : option (json * string) :=
  match fuel with
  | O => None
  | S fuel' =>
      match skip_ws s with
      | EmptyString => None
      | String c s' =>
          if Ascii.eqb c "n" then rest ← strip "ull" s'; Some (JNull, rest)
          else if Ascii.eqb c "t" then rest ← strip "rue" s'; Some (JBool true, rest)
          else if Ascii.eqb c "f" then rest ← strip "alse" s'; Some (JBool false, rest)
          else if Ascii.eqb c dquote then
            '(str, rest) ← decode_string s'; Some (JStr str, rest)
          else if Ascii.eqb c "[" then
            match skip_ws s' with
            | String "]" rest => Some (JList [], rest)
            | _ => '(l, rest) ← decode_elements fuel' s'; Some (JList l, rest)
            end
          else if Ascii.eqb c "{" then
            match skip_ws s' with
            | String "}" rest => Some (JDict [], rest)
            | _ => '(items, rest) ← decode_members fuel' s'; Some (JDict items, rest)
            end
          else
            let '(num, rest) := span_number (String c s') in
            v ← decode_number num; Some (v, rest)
      end
  end
with decode_elements (fuel : nat) (s : string) : option (list json * string) :=
  match fuel with
  | O => None
  | S fuel' =>
      '(v, rest) ← decode fuel' s;
      match skip_ws rest with
      | String "," rest' =>
          '(l, rest'') ← decode_elements fuel' rest'; Some (v :: l, rest'')
      | String "]" rest' => Some ([v], rest')
      | _ => None
      end
  end
with decode_members (fuel : nat) (s : string)
  : option (list (string * json) * string) :=
  match fuel with
  | O => None
  | S fuel' =>
      match skip_ws s with
      | String c s' =>
          if Ascii.eqb c dquote then
            '(k, rest) ← decode_string s';
            match skip_ws rest with
            | String ":" rest' =>
                '(v, rest'') ← decode fuel' rest';
                match skip_ws rest'' with
                | String "," rest3 =>
                    '(items, rest4) ← decode_members fuel' rest3;
                    Some ((k, v) :: items, rest4)
                | String "}" rest3 => Some ([(k, v)], rest3)
                | _ => None
                end
            | _ => None
            end
          else None
      | EmptyString => None
      end
  end.

Definition loads (s : string) : result json :=
  match decode (S (String.length s)) s with
  | Some (v, rest) =>
      match skip_ws rest with
      | EmptyString => Return v
      | _ => Raise JSONDecodeError
      end
  | None => Raise JSONDecodeError
  end.

End Json.

Import Json.

(** ** The gateway facade: [GatewayStreamer] *)

Module Streamer.

Section Facade.

(** Documents and parameter values are opaque payloads. *)
Variables (Doc Param : Type).

(** *** Requests and responses *)

(** Modelled from the spec: the status code of a response,
    [code ∈ {OK, ERROR}] ([jina_pb2.StatusProto] is generated code that is
    not among the sources). *)
Inductive StatusType : Type := OK | ERROR.

Definition StatusType_eqb (a b : StatusType) : bool :=
  match a, b with
  | OK, OK | ERROR, ERROR => true
  | _, _ => false
  end.

(** [status.exception]: the fields that [stream] reads. *)
Record ExceptionProto : Type := {
  exc_name : string;
  exc_args : list string;
  exc_stacks : list string;
  exc_executor : string;
}.

Record StatusProto : Type := {
  code : StatusType;
  exception : ExceptionProto;
}.

Record HeaderProto : Type := {
  exec_endpoint : string;
  target_executor : string;
}.

(** A [DataRequest]; responses have the same type.  [data_docs] stands for
    both [req.data.docs] and its shorthand [req.docs]. *)
Record DataRequest : Type := {
  header : HeaderProto;
  parameters : gmap string Param;
  data_docs : list Doc;
  status : StatusProto;
}.

(** [DataRequest()]: every field at its default. *)
Definition DataRequest_new : DataRequest :=
  {| header := {| exec_endpoint := EmptyString; target_executor := EmptyString |};
     parameters := ∅;
     data_docs := [];
     status := {| code := OK;
                  exception := {| exc_name := EmptyString; exc_args := [];
                                  exc_stacks := []; exc_executor := EmptyString |} |} |}.

Definition set_docs (req : DataRequest) (d : list Doc) : DataRequest :=
  {| header := header req; parameters := parameters req; data_docs := d;
     status := status req |}.

Definition set_exec_endpoint (req : DataRequest) (e : string) : DataRequest :=
  {| header := {| exec_endpoint := e;
                  target_executor := target_executor (header req) |};
     parameters := parameters req; data_docs := data_docs req; status := status req |}.

Definition set_target_executor (req : DataRequest) (t : string) : DataRequest :=
  {| header := {| exec_endpoint := exec_endpoint (header req);
                  target_executor := t |};
     parameters := parameters req; data_docs := data_docs req; status := status req |}.

Definition set_parameters (req : DataRequest) (p : gmap string Param) : DataRequest :=
  {| header := header req; parameters := p; data_docs := data_docs req;
     status := status req |}.

(** [jina.excepts.ExecutorError(name=, args=, stacks=, executor=)] *)
Record ExecutorError : Type := {
  name : string;
  args : list string;
  stacks : list string;
  executor : string;
}.

(** *** Batching *)

(** Modelled from the spec: [DocumentArray.batch(batch_size, shuffle=False)]
    belongs to the document library, which is not among the sources.  It
    chunks the documents into batches of [batch_size], the last of which may
    be smaller, and fails when [batch_size] is not positive.  The recursion
    consumes one batch per unit of [fuel]; [batch] supplies the number of
    documents, which suffices since every batch of a positive size is
    non-empty. *)
Fixpoint chunks (fuel : nat) (k : nat) (l : list Doc) : list (list Doc) :=
  match fuel with
  | O => []
  | S fuel' =>
      match l with
      | [] => []
      | _ :: _ => take k l :: chunks fuel' k (drop k l)
      end
  end.

(** Modelled from the spec: [docs.batch(batch_size=, shuffle=False)], with
    the failure for a size that is not positive. *)
Definition batch (l : list Doc) (batch_size : Z) : result (list (list Doc)) :=
  if batch_size <=? 0
  then Raise (ValueError "`batch_size` should be a positive integer")
  else Return (chunks (length l) (Z.to_nat batch_size) l).


(** *** The request streamer *)

(** The arguments with which the facade calls [RequestStreamer.stream]. *)
Record stream_args : Type := {
  request_iterator : list DataRequest;
  results_in_order : bool;
}.

(** Modelled from the spec: [RequestStreamer] (module [jina.serve.stream],
    not among the sources) consumes a request iterator and produces a
    response iterator with one response per request; errors are data in the
    response status.  Responses come in input order when [results_in_order]
    is set and in completion order otherwise.  [request_handler] drives one
    request through the topology and [completion] is the order in which the
    handler invocations complete. *)
Record RequestStreamer : Type := {
  request_handler : DataRequest -> DataRequest;
  completion : list DataRequest -> list DataRequest;
}.

Definition RequestStreamer_stream (rs : RequestStreamer) (a : stream_args)
  : list DataRequest :=
  let responses := map (request_handler rs) (request_iterator a) in
  if results_in_order a then responses else completion rs responses.

(** A [RequestStreamer] instance together with the instance attribute [Call]
    that [GatewayStreamer.__init__] assigns to it. *)
Record RequestStreamer_obj : Type := {
  rs_self : RequestStreamer;
  rs_Call : option (stream_args -> list DataRequest);
}.

(** *** The connection pool *)

(** One [add_connection(deployment=, address=, head=)] call. *)
Record connection : Type := {
  conn_deployment : string;
  conn_address : string;
  conn_head : bool;
}.

(** Modelled from the spec: [GrpcConnectionPool] (package
    [jina.serve.networking], not among the sources), represented by the
    [add_connection] calls it has received, in call order, and by whether
    [close] has marked it closed. *)
Record GrpcConnectionPool : Type := {
  pool_runtime_name : string;
  pool_connections : list connection;
  pool_closed : bool;
}.

Definition GrpcConnectionPool_new (runtime_name : string) : GrpcConnectionPool :=
  {| pool_runtime_name := runtime_name; pool_connections := [];
     pool_closed := false |}.

Definition add_connection (pool : GrpcConnectionPool)
    (deployment address : string) (head : bool) : GrpcConnectionPool :=
  {| pool_runtime_name := pool_runtime_name pool;
     pool_connections :=
       pool_connections pool ++
       [{| conn_deployment := deployment; conn_address := address;
           conn_head := head |}];
     pool_closed := pool_closed pool |}.

(** The value of one entry of [executor_addresses], of type
    [Union[str, List[str]]]. *)
Inductive addresses : Type :=
| AddrStr (s : string)
| AddrList (l : list string).

(** [for c in s] over a [str] yields its characters as strings of length 1. *)
Fixpoint str_iter (s : string) : list string :=
  match s with
  | EmptyString => []
  | String c rest => String c EmptyString :: str_iter rest
  end.

(** [for address in addresses] *)
Definition addresses_iter (a : addresses) : list string :=
  match a with
  | AddrStr s => str_iter s
  | AddrList l => l
  end.

(** [GatewayStreamer._create_connection_pool]; a dictionary that is iterated
    with [.items()] is the list of its items in insertion order. *)
Definition _create_connection_pool (runtime_name : string)
    (deployments_addresses : list (string * addresses)) : GrpcConnectionPool :=
  let connection_pool := GrpcConnectionPool_new runtime_name in
  fold_left
    (fun connection_pool '(deployment_name, addrs) =>
       fold_left
         (fun connection_pool address =>
            add_connection connection_pool deployment_name address true)
         (addresses_iter addrs) connection_pool)
    deployments_addresses connection_pool.

(** *** The facade object *)

Record GatewayStreamer : Type := {
  runtime_name : string;
  _executor_addresses : list (string * addresses);
  _connection_pool : GrpcConnectionPool;
  _streamer : RequestStreamer_obj;
}.

(** [GatewayStreamer.__init__]: [streamer] is the [RequestStreamer] built
    from the topology graph and the request handler, which are not among the
    sources. *)
Definition __init__ (executor_addresses : list (string * addresses))
    (runtime_name : string) (streamer : RequestStreamer) : GatewayStreamer :=
  {| runtime_name := runtime_name;
     _executor_addresses := executor_addresses;
     _connection_pool := _create_connection_pool runtime_name executor_addresses;
     _streamer := {| rs_self := streamer;
                     rs_Call := Some (RequestStreamer_stream streamer) |} |}.

(** [GatewayStreamer.rpc_stream]: positional and keyword arguments are
    passed on unchanged to the inner [RequestStreamer]. *)
Definition rpc_stream (self : GatewayStreamer) (a : stream_args)
  : list DataRequest :=
  RequestStreamer_stream (rs_self (_streamer self)) a.

(** [Call = rpc_stream] in the class body. *)
Definition Call : GatewayStreamer -> stream_args -> list DataRequest :=
  rpc_stream.

(** The request generator of [stream_docs].  An [Optional] argument is
    falsy when it is [None], the empty string or the empty dictionary. *)
Definition _req_generator (docs : list Doc) (request_size : Z)
    (exec_endpoint target_executor : option string)
    (parameters : option (gmap string Param)) : result (list DataRequest) :=
  batches ← batch docs request_size;
  mret (map
    (fun docs_batch =>
       let req := DataRequest_new in
       let req := set_docs req docs_batch in
       let req := match exec_endpoint with
                  | Some e => if String.eqb e EmptyString then req
                              else set_exec_endpoint req e
                  | None => req
                  end in
       let req := match target_executor with
                  | Some t => if String.eqb t EmptyString then req
                              else set_target_executor req t
                  | None => req
                  end in
       let req := match parameters with
                  | Some p => if bool_decide (p = ∅) then req
                              else set_parameters req p
                  | None => req
                  end in
       req)
    batches).

(** What [stream_docs] and [stream] yield: documents or a full response. *)
Inductive payload : Type :=
| Docs (d : list Doc)
| Response (r : DataRequest).

(** [GatewayStreamer.stream_docs]; the items the asynchronous generator
    yields are collected in a list.  An exception of the request generator
    ends the iteration with that exception. *)
Definition stream_docs (self : GatewayStreamer) (docs : list Doc)
    (request_size : Z) (return_results : bool)
    (exec_endpoint target_executor : option string)
    (parameters : option (gmap string Param)) (results_in_order : bool)
  : result (list payload) :=
  reqs ← _req_generator docs request_size exec_endpoint target_executor parameters;
  mret (map
    (fun resp => if return_results then Response resp else Docs (data_docs resp))
    (rpc_stream self {| request_iterator := reqs;
                        results_in_order := results_in_order |})).


(** [GatewayStreamer.stream]; [stream_docs] is called with
    [return_results=True], so every [result] is a response.  The assignment
    to [result.document_array_cls] only selects the class of the documents
    that are returned. *)
Definition stream (self : GatewayStreamer) (docs : list Doc)
    (request_size : Z) (return_results : bool)
    (exec_endpoint target_executor : option string)
    (parameters : option (gmap string Param)) (results_in_order : bool)
  : result (list (payload * option ExecutorError)) :=
  results ← stream_docs self docs request_size true exec_endpoint
              target_executor parameters results_in_order;
  mapM
    (fun result =>
       match result with
       | Response result =>
           let error := None in
           let error :=
             if StatusType_eqb ERROR (code (status result)) then
               let exception := exception (status result) in
               Some {| name := exc_name exception;
                       args := exc_args exception;
                       stacks := exc_stacks exception;
                       executor := exc_executor exception |}
             else error in
           if return_results
           then mret (Response result, error)
           else mret (Docs (data_docs result), error)
       | Docs _ => Raise (AttributeError "status")
       end)
    results.


(** *** Coroutines of the facade *)

(** What the coroutines do to their collaborators, in the order in which it
    happens. *)
Inductive event : Type :=
| LogDebug (msg : string)
| LogError (msg : string)
| FloatingTaskDone (task : nat)
| FloatingDrained
| PoolClosed
| TaskCreated (deployment : string)
| TaskDone (deployment : string) (outcome : result unit)
| TaskCancel (deployment : string).

(** The objects a [GatewayStreamer] shares with its coroutines: the
    floating-task registry of the request streamer, the connection pool, and
    the asyncio task that runs the coroutine.  [cancel_in = Some n] says that
    this task is cancelled after [n] more of its [await]s have completed;
    [None] says that it is never cancelled. *)
Record World : Type := {
  floating_tasks : list nat;
  connection_pool : GrpcConnectionPool;
  cancel_in : option nat;
  history : list event;
}.

Definition add_history (es : list event) (w : World) : World :=
  {| floating_tasks := floating_tasks w;
     connection_pool := connection_pool w;
     cancel_in := cancel_in w;
     history := history w ++ es |}.

Definition log (e : event) : io World unit := io_modify (add_history [e]).

Definition set_cancel_in (c : option nat) (w : World) : World :=
  {| floating_tasks := floating_tasks w;
     connection_pool := connection_pool w;
     cancel_in := c;
     history := history w |}.

(** [await c]: a cancelled task gets [CancelledError] at the [await]. *)
Definition await {A} (c : io World A) : io World A :=
  fun w =>
    match cancel_in w with
    | Some O => (Raise CancelledError, set_cancel_in None w)
    | Some (S n) => c (set_cancel_in (Some n) w)
    | None => c w
    end.

(** Modelled from the spec: [RequestStreamer.wait_floating_requests_end]
    drains the registry of floating tasks (awaits them all) before it
    returns. *)
Definition wait_floating_requests_end : io World unit :=
  io_modify (fun w =>
    {| floating_tasks := [];
       connection_pool := connection_pool w;
       cancel_in := cancel_in w;
       history := history w ++ map FloatingTaskDone (floating_tasks w)
                            ++ [FloatingDrained] |}).

(** Modelled from the spec: [GrpcConnectionPool.close] marks the pool closed
    and closes every channel. *)
Definition GrpcConnectionPool_close : io World unit :=
  io_modify (fun w =>
    {| floating_tasks := floating_tasks w;
       connection_pool :=
         {| pool_runtime_name := pool_runtime_name (connection_pool w);
            pool_connections := pool_connections (connection_pool w);
            pool_closed := true |};
       cancel_in := cancel_in w;
       history := history w ++ [PoolClosed] |}).

(** [GatewayStreamer.close] *)
Definition close : io World unit :=
  _ ← await wait_floating_requests_end;
  await GrpcConnectionPool_close.

(** [GatewayStreamer.warmup].  [pool_warmup deployment stop_event] is the
    outcome of the task that runs [GrpcConnectionPool.warmup] for one
    deployment.  The state of the body pairs the local variable
    [deployment_warmup_tasks] with the shared objects. *)
Section Warmup.

Variable pool_warmup : string -> bool -> result unit.

Definition on_world {A} (c : io World A) : io (list string * World) A :=
  fun '(tasks, w) => let '(r, w') := c w in (r, (tasks, w')).

(** [deployment_warmup_tasks.append(asyncio.create_task(...))] *)
Definition append_task (deployment : string) : io (list string * World) unit :=
  fun '(tasks, w) =>
    on_world (log (TaskCreated deployment)) (tasks ++ [deployment], w).

(** [await asyncio.gather] of the tasks with [return_exceptions=True]: the outcome of
    every task, an exception included, is an element of the returned list. *)
Definition gather_return_exceptions (stop_event : bool)
  : io (list string * World) (list (result unit)) :=
  fun '(tasks, w) =>
    let results := map (fun d => pool_warmup d stop_event) tasks in
    on_world
      (await (fun w =>
         (Return results,
          add_history
            (map (fun d => TaskDone d (pool_warmup d stop_event)) tasks) w)))
      (tasks, w).

(** [for x in xs: body x] *)
Definition for_each {S X} (xs : list X) (body : X -> io S unit) : io S unit :=
  fold_right (fun x rest => _ ← body x; rest) (mret tt) xs.

(** [for task in deployment_warmup_tasks: task.cancel()] *)
Definition cancel_tasks : io (list string * World) unit :=
  fun '(tasks, w) =>
    for_each tasks (fun task => on_world (log (TaskCancel task))) (tasks, w).

(** [deployment_warmup_tasks = []]: the body starts with no task, and the
    list is dropped when the body is left. *)
Definition with_tasks {A} (body : io (list string * World) A) : io World A :=
  fun w => let '(r, (_, w')) := body ([], w) in (r, w').

Definition warmup (self : GatewayStreamer) (stop_event : bool) : io World unit :=
  _ ← log (LogDebug "Running GatewayRuntime warmup");
  let deployments := remove_dups (map fst (_executor_addresses self)) in
  with_tasks
    (try_except
       (try_except
          (_ ← for_each deployments append_task;
           _ ← gather_return_exceptions stop_event;
           mret tt)
          is_CancelledError
          (fun ex => _ ← cancel_tasks; io_raise ex))
       is_Exception
       (fun ex =>
          _ ← on_world (log (LogError "error with GatewayRuntime warmup up task"));
          mret tt)).

End Warmup.


(** *** Handing the constructor arguments to a child process *)

Section Environment.

(** [json.dumps] and [json.loads] of the standard library. *)
Variable json_dumps : json -> result string.
Variable json_loads : string -> result json.

(** The call of the class [GatewayStreamer] with the items of a dictionary
    as keyword arguments: the binding of the keywords to the parameters of
    [__init__], followed by [__init__]. *)
Variable GatewayStreamer_cls : list (string * json) -> result GatewayStreamer.

(** [GatewayStreamer.get_streamer]; the argument is [os.environ]. *)
Definition get_streamer (environ : gmap string string) : result GatewayStreamer :=
  match environ !! "JINA_STREAMER_ARGS" with
  | Some value =>
      args_dict ← json_loads value;
      match args_dict with
      | JDict kwargs => GatewayStreamer_cls kwargs
      | _ => Raise (TypeError "argument after ** must be a mapping")
      end
  | None => Raise (OSError "JINA_STREAMER_ARGS environment variable is not set")
  end.

(** [GatewayStreamer._set_env_streamer_args]; returns [os.environ] as the
    assignment leaves it. *)
Definition _set_env_streamer_args (kwargs : list (string * json))
    (environ : gmap string string) : result (gmap string string) :=
  value ← json_dumps (JDict kwargs);
  mret (<["JINA_STREAMER_ARGS" := value]> environ).

End Environment.

End Facade.

Arguments DataRequest_new {Doc Param}.
Arguments header {Doc Param}.
Arguments parameters {Doc Param}.
Arguments data_docs {Doc Param}.
Arguments status {Doc Param}.
Arguments set_docs {Doc Param}.
Arguments set_exec_endpoint {Doc Param}.
Arguments set_target_executor {Doc Param}.
Arguments set_parameters {Doc Param}.
Arguments request_iterator {Doc Param}.
Arguments results_in_order {Doc Param}.
Arguments request_handler {Doc Param}.
Arguments completion {Doc Param}.
Arguments rs_self {Doc Param}.
Arguments rs_Call {Doc Param}.
Arguments Build_RequestStreamer {Doc Param}.
Arguments Build_stream_args {Doc Param}.
Arguments runtime_name {Doc Param}.
Arguments _executor_addresses {Doc Param}.
Arguments _connection_pool {Doc Param}.
Arguments _streamer {Doc Param}.
Arguments batch {Doc} l batch_size.
Arguments chunks {Doc} fuel k l.
Arguments RequestStreamer_stream {Doc Param} rs a.
Arguments rpc_stream {Doc Param} self a.
Arguments Call {Doc Param}.
Arguments _req_generator {Doc Param}.
Arguments stream_docs {Doc Param}.
Arguments stream {Doc Param}.
Arguments __init__ {Doc Param}.
Arguments warmup {Doc Param}.
Arguments get_streamer {Doc Param}.
Arguments Docs {Doc Param}.
Arguments Response {Doc Param}.

End Streamer.

(** ** The runtime shell: [AsyncNewLoopRuntime] *)

Module Runtime.

(** Signals of the platform; only three of them are handled. *)
Inductive Signals : Type :=
| SIGHUP | SIGINT | SIGQUIT | SIGKILL | SIGSEGV | SIGTERM.

Definition Signals_eqb (a b : Signals) : bool :=
  match a, b with
  | SIGHUP, SIGHUP | SIGINT, SIGINT | SIGQUIT, SIGQUIT
  | SIGKILL, SIGKILL | SIGSEGV, SIGSEGV | SIGTERM, SIGTERM => true
  | _, _ => false
  end.

Definition Signals_name (s : Signals) : string :=
  match s with
  | SIGHUP => "SIGHUP" | SIGINT => "SIGINT" | SIGQUIT => "SIGQUIT"
  | SIGKILL => "SIGKILL" | SIGSEGV => "SIGSEGV" | SIGTERM => "SIGTERM"
  end.

Definition HANDLED_SIGNALS : list Signals := [SIGINT; SIGTERM; SIGSEGV].

(** The class of the cancel event: only an [asyncio.Event] can be awaited. *)
Inductive event_class : Type :=
| asyncio_Event
| multiprocessing_Event
| threading_Event.

Definition is_asyncio_Event (c : event_class) : bool :=
  match c with
  | asyncio_Event => true
  | _ => false
  end.

(** What the runtime writes to its logger. *)
Inductive record : Type :=
| Debug (msg : string)
| Warning (msg : string).

(** A registered signal handler: the closure [_cancel(sig)], which is
    determined by the signal it was made for. *)
Inductive handler : Type :=
| _inner_cancel (sig : Signals).

(** The runtime object: the cancel event [is_cancel] with its class and its
    flag, the handlers registered with the event loop (with [signal.signal]
    on Windows), and the logger's output. *)
Record runtime : Type := {
  is_cancel_class : event_class;
  is_cancel : bool;
  signal_handlers : list (Signals * handler);
  logger : list record;
}.

(** [self.is_cancel.set()] *)
Definition is_cancel_set (self : runtime) : runtime :=
  {| is_cancel_class := is_cancel_class self;
     is_cancel := true;
     signal_handlers := signal_handlers self;
     logger := logger self |}.

Definition logger_write (r : record) (self : runtime) : runtime :=
  {| is_cancel_class := is_cancel_class self;
     is_cancel := is_cancel self;
     signal_handlers := signal_handlers self;
     logger := logger self ++ [r] |}.

(** The body of a handler: it logs the signal and sets the cancel event. *)
Definition call_handler (h : handler) (self : runtime) : runtime :=
  match h with
  | _inner_cancel sig =>
      is_cancel_set (logger_write (Debug ("Received signal " +:+ Signals_name sig)) self)
  end.

(** [AsyncNewLoopRuntime.__init__], as far as the cancel event and the
    signal handlers go: [cancel_event or asyncio.Event()], then one handler
    per handled signal.  Both platform branches register the same effect. *)
Definition __init__ (cancel_event : option (event_class * bool)) : runtime :=
  let '(cls, flag) := default (asyncio_Event, false) cancel_event in
  {| is_cancel_class := cls;
     is_cancel := flag;
     signal_handlers := map (fun sig => (sig, _inner_cancel sig)) HANDLED_SIGNALS;
     logger := [] |}.

(** [AsyncNewLoopRuntime._cancel]: signal the runtime to terminate. *)
Definition _cancel (self : runtime) : runtime := is_cancel_set self.

(** The handler registered for a signal, if any. *)
Fixpoint find_handler (sig : Signals) (l : list (Signals * handler)) : option handler :=
  match l with
  | [] => None
  | (sig', h) :: l' => if Signals_eqb sig' sig then Some h else find_handler sig l'
  end.

(** Receipt of a signal by the process that runs the runtime: the handler
    registered for it is called; a signal without one does not reach the
    runtime object. *)
Definition receive (sig : Signals) (self : runtime) : runtime :=
  match find_handler sig (signal_handlers self) with
  | Some h => call_handler h self
  | None => self
  end.


(** *** Waiting for the cancel event *)

(** Time is counted in milliseconds of the event loop's clock.  A schedule
    lists what reaches the runtime from outside during each millisecond;
    after its end nothing more arrives. *)
Inductive occurrence : Type :=
| Quiet
| Signal (sig : Signals)
| Cancel.

Definition occur (self : runtime) (o : occurrence) : runtime :=
  match o with
  | Quiet => self
  | Signal sig => receive sig self
  | Cancel => _cancel self
  end.

(** The runtime after the first [ms] milliseconds of a schedule. *)
Definition advance (sched : list occurrence) (ms : nat) (self : runtime) : runtime :=
  fold_left occur (take ms sched) self.

(** A coroutine either is done at some time, with a value or an exception,
    or stays suspended for good. *)
Inductive coro (A : Type) : Type :=
| Done (at_ms : nat) (r : result A)
| Suspended.
Arguments Done {A} at_ms r.
Arguments Suspended {A}.

(** [await self.is_cancel.wait()]: resumes as soon as the event is set. *)
Fixpoint Event_wait (sched : list occurrence) (self : runtime) (now : nat) : option nat :=
  if is_cancel self then Some now
  else match sched with
       | [] => None
       | o :: sched' => Event_wait sched' (occur self o) (S now)
       end.

(** [asyncio.sleep(0.1)] lasts 100 milliseconds of the loop's clock. *)
Definition sleep_ms : nat := 100.

(** [while not self.is_cancel.is_set(): await asyncio.sleep(0.1)]; every
    iteration consumes part of the schedule, whose length bounds the number
    of iterations. *)
Fixpoint poll (fuel : nat) (sched : list occurrence) (self : runtime) (now : nat)
  : option nat :=
  if is_cancel self then Some now
  else match fuel with
       | O => None
       | S fuel' =>
           match sched with
           | [] => None
           | _ :: _ =>
               poll fuel' (drop sleep_ms sched) (advance sched sleep_ms self)
                    (now + sleep_ms)
           end
       end.

Section Subclass.

(** The two abstract coroutines of the class.  [async_run_forever] gets the
    time at which [async_cancel] was called, if it ever is, and says when
    and how the subclass's server ends; [async_cancel] says how the call of
    the subclass's cancel method ends. *)
Variable async_run_forever : option nat -> coro unit.
Variable async_cancel : result unit.

(** [AsyncNewLoopRuntime._wait_for_cancel] *)
Definition _wait_for_cancel (sched : list occurrence) (self : runtime) : coro unit :=
  let woken :=
    if is_asyncio_Event (is_cancel_class self)
    then Event_wait sched self 0
    else poll (length sched) sched self 0 in
  match woken with
  | Some t => Done t async_cancel
  | None => Suspended
  end.

(** [await asyncio.gather(a, b)]: done when both are done; the first
    exception of either is raised at once. *)
Definition gather (a b : coro unit) : coro unit :=
  match a, b with
  | Done ta (Raise ea), Done tb (Raise eb) =>
      if (ta <=? tb)%nat then Done ta (Raise ea) else Done tb (Raise eb)
  | Done ta (Raise ea), _ => Done ta (Raise ea)
  | _, Done tb (Raise eb) => Done tb (Raise eb)
  | Done ta (Return _), Done tb (Return _) => Done (Nat.max ta tb) (Return tt)
  | _, _ => Suspended
  end.

(** The time at which a coroutine is done, if ever. *)
Definition done_at {A} (c : coro A) : option nat :=
  match c with
  | Done t _ => Some t
  | Suspended => None
  end.

(** [AsyncNewLoopRuntime._loop_body]; returns the runtime as it is when the
    body is left. *)
Definition _loop_body (sched : list occurrence) (self : runtime) : coro unit * runtime :=
  let waiting := _wait_for_cancel sched self in
  match gather (async_run_forever (done_at waiting)) waiting with
  | Done t (Raise e) =>
      if is_CancelledError e
      then (Done t (Return tt),
            logger_write (Warning "received terminate ctrl message from main process")
              (advance sched t self))
      else (Done t (Raise e), advance sched t self)
  | Done t (Return _) => (Done t (Return tt), advance sched t self)
  | Suspended => (Suspended, advance sched (length sched) self)
  end.

(** [AsyncNewLoopRuntime.run_forever]: [run_until_complete] of the body. *)
Definition run_forever (sched : list occurrence) (self : runtime) : coro unit * runtime :=
  _loop_body sched self.

End Subclass.

(** *** Readiness *)

(** The serving status of the health-checking protocol. *)
Inductive ServingStatus : Type :=
| UNKNOWN | SERVING | NOT_SERVING | SERVICE_UNKNOWN.

Definition ServingStatus_eqb (a b : ServingStatus) : bool :=
  match a, b with
  | UNKNOWN, UNKNOWN | SERVING, SERVING | NOT_SERVING, NOT_SERVING
  | SERVICE_UNKNOWN, SERVICE_UNKNOWN => true
  | _, _ => false
  end.

Record HealthCheckResponse : Type := { hc_status : ServingStatus }.

Section Readiness.

(** The type of the timeout and the two health-check senders of
    [jina.serve.networking.utils]. *)
Variable Timeout : Type.
Variable send_health_check_sync : string -> Timeout -> result HealthCheckResponse.
Variable send_health_check_async : string -> Timeout -> result HealthCheckResponse.

(** [AsyncNewLoopRuntime.is_ready] *)
Definition is_ready (ctrl_address : string) (timeout : Timeout) : result bool :=
  try_
    (response ← send_health_check_sync ctrl_address timeout;
     mret (ServingStatus_eqb (hc_status response) SERVING))
    is_RpcError
    (mret false).

(** [AsyncNewLoopRuntime.async_is_ready] *)
Definition async_is_ready (ctrl_address : string) (timeout : Timeout) : result bool :=
  try_
    (response ← send_health_check_async ctrl_address timeout;
     mret (ServingStatus_eqb (hc_status response) SERVING))
    is_RpcError
    (mret false).

End Readiness.

Arguments is_ready {Timeout}.
Arguments async_is_ready {Timeout}.

End Runtime.

(** ** Concrete inputs for the scenarios *)

Module Scenario.

Import Streamer Runtime.

(** Documents and parameter values are strings here. *)
Definition docs3 : list string := ["d1"; "d2"; "d3"].

(** A request streamer over the topology [start -> executor0 -> end] with an
    echoing executor, whose responses complete in reverse order. *)
Definition echo : RequestStreamer string string :=
  {| request_handler := fun req => req; completion := reverse |}.

Definition executor_addresses : list (string * addresses) :=
  [("executor0", AddrList ["0.0.0.0:8081"; "0.0.0.0:8082"])].

Definition gateway : GatewayStreamer string string :=
  Streamer.__init__ executor_addresses "custom gateway" echo.

(** The same deployment with a single address given as a string. *)
Definition executor_address_str : list (string * addresses) :=
  [("executor0", AddrStr "0.0.0.0:8081")].

(** Keyword arguments of the constructor as the runtime passes them on. *)
Definition kwargs : list (string * json) :=
  [("graph_representation",
    JDict [("start-gateway", JList [JStr "executor0"]);
           ("executor0", JList [JStr "end-gateway"])]);
   ("executor_addresses",
    JDict [("executor0", JList [JStr "0.0.0.0:8081"; JStr "0.0.0.0:8082"])]);
   ("retries", JInt 0);
   ("compression", JNull);
   ("prefetch", JInt 0)].

Definition addresses_of_json (v : json) : option addresses :=
  match v with
  | JStr s => Some (AddrStr s)
  | JList l =>
      AddrList <$> mapM (fun x => match x with JStr s => Some s | _ => None end) l
  | _ => None
  end.

(** A class call for the scenarios: it binds [executor_addresses] and builds
    the facade around the echoing request streamer. *)
Definition GatewayStreamer_cls (kwargs : list (string * json))
  : result (GatewayStreamer string string) :=
  match (list_to_map kwargs : gmap string json) !! "executor_addresses" with
  | Some (JDict items) =>
      match mapM (fun '(d, v) => pair d <$> addresses_of_json v) items with
      | Some addrs => Return (Streamer.__init__ addrs "custom gateway" echo)
      | None => Raise (TypeError "executor_addresses")
      end
  | _ => Raise (TypeError "missing required argument: executor_addresses")
  end.

(** Two floating tasks in flight, the pool open, no cancellation. *)
Definition world : World :=
  {| floating_tasks := [7; 9]%nat;
     connection_pool := _connection_pool gateway;
     cancel_in := None;
     history := [] |}.

(** The same, with the running task cancelled at its first [await]. *)
Definition world_cancelled : World := set_cancel_in (Some 0%nat) world.

(** A server whose task is cancelled after 5 ms, and ten quiet
    milliseconds. *)
Definition server_cancelled (_ : option nat) : coro unit :=
  Done 5 (Raise CancelledError).

Definition quiet : list occurrence := replicate 10 Quiet.

End Scenario.

(** ** Posting to one executor: [_ExecutorStreamer] *)

Module ExecutorStreamer.

Import Streamer.

Section Post.

Variables (Doc Param Meta : Type).

(** What the assignment of an [Optional] argument stores in a field of the
    request, or the exception of the assignment; the request classes are not
    among the sources. *)
Variable header_value : option string -> result string.
Variable parameters_value :
  option (gmap string Param) -> result (gmap string Param).

(** [GrpcConnectionPool.send_requests_once(requests=, deployment=, head=,
    endpoint=)]: the response with its metadata, or an exception. *)
Variable send_requests_once :
  list (DataRequest Doc Param) -> string -> bool -> option string ->
  result (DataRequest Doc Param * Meta).

(** The arguments of one [send_requests_once] call. *)
Record send_call : Type := {
  call_requests : list (DataRequest Doc Param);
  call_deployment : string;
  call_head : bool;
  call_endpoint : option string;
}.

(** The loop of [post] that fills [reqs]. *)
Definition post_requests (executor_name : string) (inputs : list Doc)
    (request_size : Z) (on : option string)
    (parameters : option (gmap string Param))
  : result (list (DataRequest Doc Param)) :=
  batches ← batch inputs request_size;
  mapM
    (fun docs_batch =>
       let req := DataRequest_new in
       e ← header_value on;
       let req := set_exec_endpoint req e in
       let req := set_target_executor req executor_name in
       p ← parameters_value parameters;
       let req := set_parameters req p in
       let req := set_docs req docs_batch in
       mret req)
    batches.

(** The list [tasks] of [post]: one call per request. *)
Definition post_tasks (executor_name : string) (on : option string)
    (reqs : list (DataRequest Doc Param)) : list send_call :=
  map
    (fun req =>
       {| call_requests := [req]; call_deployment := executor_name;
          call_head := true; call_endpoint := on |})
    reqs.

Definition run_task (c : send_call) : result (DataRequest Doc Param * Meta) :=
  send_requests_once (call_requests c) (call_deployment c) (call_head c)
    (call_endpoint c).

(** [await asyncio.gather] of the tasks: the results in the order of the
    tasks, or an exception of a task.  Which exception it is when several
    tasks fail depends on their timing; here it is that of the first failed
    task of the list. *)
Definition gather_results {A} (outcomes : list (result A)) : result (list A) :=
  mapM (fun r => r) outcomes.

(** [_ExecutorStreamer.post] *)
Definition post (executor_name : string) (inputs : list Doc)
    (request_size : Z) (on : option string)
    (parameters : option (gmap string Param)) : result (list Doc) :=
  reqs ← post_requests executor_name inputs request_size on parameters;
  let tasks := post_tasks executor_name on reqs in
  results ← gather_results (map run_task tasks);
  let docs := [] in
  mret (fold_left (fun docs '(resp, _) => docs ++ data_docs resp) results docs).

End Post.

Arguments call_requests {Doc Param}.
Arguments call_deployment {Doc Param}.
Arguments call_head {Doc Param}.
Arguments call_endpoint {Doc Param}.
Arguments post_requests {Doc Param}.
Arguments post_tasks {Doc Param}.
Arguments run_task {Doc Param Meta}.
Arguments post {Doc Param Meta}.

End ExecutorStreamer.

(** ** Teardown and telemetry of the runtime shell *)

Module Lifecycle.

(** The tracer and meter providers: which of the two methods each has
    ([hasattr]) and how a call of it ends. *)
Inductive method : Type := force_flush | shutdown.

Inductive provider_kind : Type := tracer | meter.

Record provider : Type := {
  has_force_flush : bool;
  force_flush_outcome : result unit;
  has_shutdown : bool;
  shutdown_outcome : result unit;
}.

Section Shell.

(** The type of the readings of [time.time()] and their difference. *)
Variable Time : Type.
Variable time_sub : Time -> Time -> Time.

(** What the shell does to its collaborators, in order. *)
Inductive effect : Type :=
| ProviderCall (k : provider_kind) (m : method)
| LoggerWarning (ex : exn)
| AsyncTeardown
| LoopStop
| LoopClose
| BaseTeardown
| Telemetry (event : string) (duration : option Time) (entity_id : string).

(** The attributes of the runtime that teardown and telemetry read and
    write; [_entity_id_] is [None] as long as the attribute does not exist,
    and [uuid_calls] counts the calls of [uuid.uuid1]. *)
Record shell : Type := {
  tracing : bool;
  tracer_provider : option provider;
  metrics : bool;
  meter_provider : option provider;
  _start_time : Time;
  _stop_time : option Time;
  _entity_id_ : option string;
  uuid_calls : nat;
  effects : list effect;
}.

Definition add_effects (es : list effect) (s : shell) : shell :=
  {| tracing := tracing s; tracer_provider := tracer_provider s;
     metrics := metrics s; meter_provider := meter_provider s;
     _start_time := _start_time s; _stop_time := _stop_time s;
     _entity_id_ := _entity_id_ s; uuid_calls := uuid_calls s;
     effects := effects s ++ es |}.

Definition add_effect (e : effect) (s : shell) : shell := add_effects [e] s.

(** A call of a collaborator that ends as [outcome] says. *)
Definition perform (e : effect) (outcome : result unit) : io shell unit :=
  fun s => (outcome, add_effect e s).

(** The two guarded calls on one provider. *)
Definition teardown_provider (k : provider_kind) (p : provider) : io shell unit :=
  _ ← (if has_force_flush p
       then perform (ProviderCall k force_flush) (force_flush_outcome p)
       else mret tt);
  if has_shutdown p
  then perform (ProviderCall k shutdown) (shutdown_outcome p)
  else mret tt.

(** [if self.tracing and self.tracer_provider: ...] *)
Definition teardown_tracer : io shell unit :=
  fun s =>
    match tracing s, tracer_provider s with
    | true, Some p => teardown_provider tracer p s
    | _, _ => (Return tt, s)
    end.

(** [if self.metrics and self.meter_provider: ...] *)
Definition teardown_meter : io shell unit :=
  fun s =>
    match metrics s, meter_provider s with
    | true, Some p => teardown_provider meter p s
    | _, _ => (Return tt, s)
    end.

(** [AsyncNewLoopRuntime._teardown_instrumentation] *)
Definition _teardown_instrumentation : io shell unit :=
  try_except
    (_ ← teardown_tracer; teardown_meter)
    is_Exception
    (fun ex => perform (LoggerWarning ex) (Return tt)).

(** The [n]-th value of [uuid.uuid1().hex]. *)
Variable uuid1_hex : nat -> string.

(** The property [_entity_id]: the cached identifier, or a new one that is
    cached. *)
Definition _entity_id : io shell string :=
  fun s =>
    match _entity_id_ s with
    | Some id => (Return id, s)
    | None =>
        let id := uuid1_hex (uuid_calls s) in
        (Return id,
         {| tracing := tracing s; tracer_provider := tracer_provider s;
            metrics := metrics s; meter_provider := meter_provider s;
            _start_time := _start_time s; _stop_time := _stop_time s;
            _entity_id_ := Some id; uuid_calls := S (uuid_calls s);
            effects := effects s |})
    end.

(** [AsyncNewLoopRuntime._send_telemetry_event] *)
Definition _send_telemetry_event : io shell unit :=
  entity_id ← _entity_id;
  perform (Telemetry "start" None entity_id) (Return tt).

(** How the subclass's [async_teardown] and the base class's [teardown]
    end, and the reading of the clock at the stop. *)
Variable async_teardown : result unit.
Variable base_teardown : result unit.
Variable stop_time : Time.

Definition set_stop_time (t : Time) : io shell unit :=
  io_modify (fun s =>
    {| tracing := tracing s; tracer_provider := tracer_provider s;
       metrics := metrics s; meter_provider := meter_provider s;
       _start_time := _start_time s; _stop_time := Some t;
       _entity_id_ := _entity_id_ s; uuid_calls := uuid_calls s;
       effects := effects s |}).

(** [self._stop_time - self._start_time] *)
Definition get_duration : io shell Time :=
  fun s =>
    match _stop_time s with
    | Some t => (Return (time_sub t (_start_time s)), s)
    | None => (Raise (AttributeError "_stop_time"), s)
    end.

(** [AsyncNewLoopRuntime.teardown] *)
Definition teardown : io shell unit :=
  _ ← _teardown_instrumentation;
  _ ← perform AsyncTeardown async_teardown;
  _ ← perform LoopStop (Return tt);
  _ ← perform LoopClose (Return tt);
  _ ← perform BaseTeardown base_teardown;
  _ ← set_stop_time stop_time;
  duration ← get_duration;
  entity_id ← _entity_id;
  perform (Telemetry "stop" (Some duration) entity_id) (Return tt).

End Shell.

Arguments ProviderCall {Time}.
Arguments LoggerWarning {Time}.
Arguments AsyncTeardown {Time}.
Arguments LoopStop {Time}.
Arguments LoopClose {Time}.
Arguments BaseTeardown {Time}.
Arguments Telemetry {Time}.
Arguments tracing {Time}.
Arguments tracer_provider {Time}.
Arguments metrics {Time}.
Arguments meter_provider {Time}.
Arguments _start_time {Time}.
Arguments _stop_time {Time}.
Arguments _entity_id_ {Time}.
Arguments uuid_calls {Time}.
Arguments effects {Time}.
Arguments add_effects {Time}.
Arguments add_effect {Time}.
Arguments teardown_tracer {Time}.
Arguments teardown_meter {Time}.
Arguments set_stop_time {Time}.
Arguments get_duration {Time}.
Arguments perform {Time}.
Arguments teardown_provider {Time}.
Arguments _teardown_instrumentation {Time}.
Arguments _entity_id {Time}.
Arguments _send_telemetry_event {Time}.
Arguments teardown {Time}.

End Lifecycle.

(** ** Waiting for a runtime to be ready *)

Module ReadyOrShutdown.

Import Runtime.

Section Wait.

(** The floating-point numbers of the timeouts with the three operations
    the method applies to them: the truth value, the product with
    [1000000000], and the comparison of an integer with a float. *)
Variable Float : Type.
Variable Float_bool : Float -> bool.
Variable Float_ns : Float -> Float.
Variable int_lt_Float : Z -> Float -> bool.

(** The default [timeout=1.0] of [is_ready]. *)
Variable default_timeout : Float.

(** What one iteration of the loop observes: the reading of
    [time.time_ns()], whether [ready_or_shutdown_event] is set, and what the
    health check answers if it is sent. *)
Record probe : Type := {
  time_ns : Z;
  is_set : bool;
  send_health_check_sync : string -> option Float -> result HealthCheckResponse;
}.

(** [1000000000 * timeout if timeout else None] *)
Definition timeout_ns_of (timeout : option Float) : option Float :=
  match timeout with
  | Some t => if Float_bool t then Some (Float_ns t) else None
  | None => None
  end.

(** [timeout_ns is None or time.time_ns() - now < timeout_ns] *)
Definition in_time (timeout_ns : option Float) (now : Z) (p : probe) : bool :=
  match timeout_ns with
  | None => true
  | Some t => int_lt_Float (time_ns p - now) t
  end.

(** The [while] loop, one probe per iteration; [None] when the probes end
    before the loop does. *)
Fixpoint wait_loop (timeout_ns : option Float) (now : Z) (ctrl_address : string)
    (probes : list probe) : option (result bool) :=
  match probes with
  | [] => None
  | p :: probes' =>
      if in_time timeout_ns now p
      then
        if is_set p then Some (Return true)
        else
          match is_ready (send_health_check_sync p) ctrl_address
                  (Some default_timeout) with
          | Return true => Some (Return true)
          | Return false => wait_loop timeout_ns now ctrl_address probes'
          | Raise e => Some (Raise e)
          end
      else Some (Return false)
  end.

(** [AsyncNewLoopRuntime.wait_for_ready_or_shutdown]; [now] is the first
    reading of the clock. *)
Definition wait_for_ready_or_shutdown (timeout : option Float) (now : Z)
    (probes : list probe) (ctrl_address : string) (health_check : bool)
  : option (result bool) :=
  let timeout_ns := timeout_ns_of timeout in
  if health_check then
    match probes with
    | p :: _ => Some (is_ready (send_health_check_sync p) ctrl_address timeout)
    | [] => None
    end
  else wait_loop timeout_ns now ctrl_address probes.

End Wait.

Arguments time_ns {Float}.
Arguments is_set {Float}.
Arguments send_health_check_sync {Float}.
Arguments timeout_ns_of {Float}.
Arguments in_time {Float}.
Arguments wait_loop {Float}.
Arguments wait_for_ready_or_shutdown {Float}.

End ReadyOrShutdown.

(** ** The gateway base class: [GatewayType] and [BaseGateway] *)

Module Gateway.

(** *** Registration of gateway classes *)

(** A class object, as far as [register_class] looks at it: its module and
    name, the classes after itself in its [__mro__], its own attribute
    [_registered_class] (a reference to a set object, [None] when the class
    has no such attribute of its own), and how often [wrap_func], which is
    not among the sources, has been applied to it. *)
Record class_object : Type := {
  __module__ : string;
  __name__ : string;
  mro_tail : list nat;
  _registered_class : option nat;
  wrapped : nat;
}.

(** The class objects and the set objects, by reference. *)
Record heap : Type := {
  classes : gmap nat class_object;
  sets : gmap nat (gset string);
}.

(** The attribute [_registered_class] as the classes of an [__mro__] have
    it: that of the first class with one of its own. *)
Fixpoint inherited (h : heap) (mro : list nat) : option nat :=
  match mro with
  | [] => None
  | c :: mro' =>
      match classes h !! c ≫= _registered_class with
      | Some r => Some r
      | None => inherited h mro'
      end
  end.

(** [getattr(cls, '_registered_class', None)] *)
Definition getattr_registered_class (h : heap) (cls : class_object) : option nat :=
  match _registered_class cls with
  | Some r => Some r
  | None => inherited h (mro_tail cls)
  end.

(** [f'{cls.__module__}.{cls.__name__}'] *)
Definition cls_id (cls : class_object) : string :=
  __module__ cls +:+ "." +:+ __name__ cls.

(** [GatewayType.register_class] on the class with reference [c]; the class
    it returns is [c] itself. *)
Definition register_class (c : nat) (h : heap) : heap :=
  match classes h !! c with
  | None => h
  | Some cls =>
      let '(r, sets1) :=
        match getattr_registered_class h cls with
        | Some r => (r, sets h)
        | None =>
            let r := fresh (dom (sets h)) in (r, <[r := ∅]> (sets h))
        end in
      let reg_cls_set := default ∅ (sets1 !! r) in
      if decide (cls_id cls ∈ reg_cls_set) then h
      else
        {| classes :=
             <[c := {| __module__ := __module__ cls;
                       __name__ := __name__ cls;
                       mro_tail := mro_tail cls;
                       _registered_class := Some r;
                       wrapped := S (wrapped cls) |}]> (classes h);
           sets := <[r := {[cls_id cls]} ∪ reg_cls_set]> sets1 |}
  end.

(** The registry a class sees: the elements of the set that [getattr]
    finds. *)
Definition registry (h : heap) (c : nat) : gset string :=
  default ∅ (cls ← classes h !! c;
             r ← getattr_registered_class h cls;
             sets h !! r).

(** *** Runtime arguments *)

(** The values of the arguments are Python values of the kinds that JSON
    has. *)
Definition runtime_set_args : gmap string json :=
  list_to_map
    [("tracer_provider", JNull);
     ("grpc_tracing_server_interceptors", JNull);
     ("runtime_name", JStr "test");
     ("metrics_registry", JNull);
     ("meter", JNull);
     ("aio_tracing_client_interceptors", JNull);
     ("tracing_client_interceptor", JNull)].

(** [BaseGateway._add_runtime_args]; [default_args_dict] holds what the
    parser of the gateway's runtime arguments, which is not among the
    sources, gives for no arguments.  The result is the dictionary of the
    namespace [self.runtime_args]. *)
Definition _add_runtime_args (default_args_dict : gmap string json)
    (_runtime_args : option (gmap string json)) : gmap string json :=
  let _runtime_args := default ∅ _runtime_args in
  let runtime_args_dict :=
    _runtime_args ∪ (default_args_dict ∪ runtime_set_args) in
  runtime_args_dict.

(** The exceptions of an attribute access and of a subscription. *)
Inductive access_error : Type :=
| NoAttribute (name : string)
| IndexOutOfRange
| NoKey
| NotSubscriptable.

(** [self.runtime_args.<name>]: [AttributeError] without the attribute. *)
Definition getattr (runtime_args : gmap string json) (name : string)
  : access_error + json :=
  match runtime_args !! name with
  | Some v => inr v
  | None => inl (NoAttribute name)
  end.

(** [v[0]]: [IndexError] on an empty list or string, [KeyError] on a
    dictionary, whose keys are strings, [TypeError] on the other values. *)
Definition getitem0 (v : json) : access_error + json :=
  match v with
  | JList (x :: _) => inr x
  | JList [] => inl IndexOutOfRange
  | JStr (String c _) => inr (JStr (String c EmptyString))
  | JStr EmptyString => inl IndexOutOfRange
  | JDict _ => inl NoKey
  | JNull | JBool _ | JInt _ | JFloat _ => inl NotSubscriptable
  end.

(** The property [BaseGateway.port] *)
Definition port (runtime_args : gmap string json) : access_error + json :=
  match getattr runtime_args "port" with
  | inr v => getitem0 v
  | inl e => inl e
  end.

(** The property [BaseGateway.ports] *)
Definition ports (runtime_args : gmap string json) : access_error + json :=
  getattr runtime_args "port".

(** The property [BaseGateway.protocols] *)
Definition protocols (runtime_args : gmap string json) : access_error + json :=
  getattr runtime_args "protocol".

(** The property [BaseGateway.host] *)
Definition host (runtime_args : gmap string json) : access_error + json :=
  getattr runtime_args "host".

End Gateway.

(** ** Cases for the executor streamer, the shell and the gateway class *)

Module Cases.

Import Streamer Runtime Scenario ExecutorStreamer Lifecycle ReadyOrShutdown
  Gateway.

(** The assignment of an endpoint to the header of a request takes a string
    and rejects [None]; so does the assignment of the parameters. *)
Definition header_value (v : option string) : result string :=
  match v with
  | Some s => Return s
  | None => Raise (TypeError "bad argument type for built-in operation")
  end.

Definition parameters_value (v : option (gmap string string))
  : result (gmap string string) :=
  match v with
  | Some p => Return p
  | None => Raise (TypeError "'NoneType' object is not iterable")
  end.

(** An executor that answers a single request with the request itself. *)
Definition respond (req : DataRequest string string)
  : DataRequest string string * unit := (req, tt).

Definition send_requests_once (requests : list (DataRequest string string))
    (deployment : string) (head : bool) (endpoint : option string)
  : result (DataRequest string string * unit) :=
  match requests with
  | [req] => Return (respond req)
  | _ => Raise (ValueError "expected one request")
  end.

(** The two requests that [post] makes of [docs3] with requests of two. *)
Definition post_reqs : list (DataRequest string string) :=
  (fun docs_batch =>
     set_docs
       (set_parameters
          (set_target_executor (set_exec_endpoint DataRequest_new "/index")
             "executor0") ∅)
       docs_batch)
  <$> [["d1"; "d2"]; ["d3"]].

(** Keyword arguments with one address only. *)
Definition kwargs_one : list (string * json) :=
  [("graph_representation",
    JDict [("start-gateway", JList [JStr "executor0"]);
           ("executor0", JList [JStr "end-gateway"])]);
   ("executor_addresses",
    JDict [("executor0", JList [JStr "0.0.0.0:8083"])])].

(** A server that fails after 5 ms. *)
Definition server_failed (_ : option nat) : coro unit :=
  Done 5 (Raise (ValueError "server")).

(** A server that stops when it is cancelled. *)
Definition server_stopped (cancelled : option nat) : coro unit :=
  match cancelled with
  | Some t => Done t (Return tt)
  | None => Suspended
  end.

(** A SIGTERM in the fourth millisecond. *)
Definition sigterm_at_3 : list occurrence :=
  [Quiet; Quiet; Quiet; Signal SIGTERM; Quiet].

(** A tracer provider whose flush fails, and a meter provider that works. *)
Definition failing_tracer : provider :=
  {| has_force_flush := true;
     force_flush_outcome := Raise (ValueError "flush");
     has_shutdown := true;
     shutdown_outcome := Return tt |}.

Definition working_meter : provider :=
  {| has_force_flush := true;
     force_flush_outcome := Return tt;
     has_shutdown := true;
     shutdown_outcome := Return tt |}.

(** A runtime shell, started at second 100, with both providers; the clock
    counts seconds. *)
Definition instrumented : shell Z :=
  {| tracing := true; tracer_provider := Some failing_tracer;
     metrics := true; meter_provider := Some working_meter;
     _start_time := 100; _stop_time := None;
     _entity_id_ := None; uuid_calls := 0;
     effects := [] |}.

(** The same without instrumentation. *)
Definition plain : shell Z :=
  {| tracing := false; tracer_provider := None;
     metrics := false; meter_provider := None;
     _start_time := 100; _stop_time := None;
     _entity_id_ := None; uuid_calls := 0;
     effects := [] |}.

Definition uuid1_hex (n : nat) : string := "uuid-" +:+ pretty n.

(** Timeouts in whole seconds. *)
Definition Float_bool (t : Z) : bool := negb (t =? 0).
Definition Float_ns (t : Z) : Z := 1000000000 * t.

(** A runtime that is not serving, seen 100 ms apart. *)
Definition not_serving (ctrl_address : string) (timeout : option Z)
  : result HealthCheckResponse :=
  Return {| hc_status := NOT_SERVING |}.

Definition probes_not_serving : list (probe Z) :=
  (fun i : nat =>
     {| time_ns := 100000000 * Z.of_nat i; is_set := false;
        send_health_check_sync := not_serving |})
  <$> seq 0 30.

(** The class [BaseGateway], registered, and a subclass of it that is not
    registered yet. *)
Definition BaseGateway : class_object :=
  {| __module__ := "jina.serve.gateway"; __name__ := "BaseGateway";
     mro_tail := []; _registered_class := Some 0%nat; wrapped := 1 |}.

Definition MyGateway : class_object :=
  {| __module__ := "__main__"; __name__ := "MyGateway";
     mro_tail := [0%nat]; _registered_class := None; wrapped := 0 |}.

Definition classes_loaded : heap :=
  {| classes := <[1%nat := MyGateway]> {[0%nat := BaseGateway]};
     sets := {[0%nat := {["jina.serve.gateway.BaseGateway"]}]} |}.

(** Runtime arguments with two ports, and defaults of a parser. *)
Definition runtime_args : gmap string json :=
  {["port" := JList [JInt 8080; JInt 8081]]}.

Definition parser_defaults : gmap string json :=
  <["port" := JNull]> {["host" := JStr "0.0.0.0"]}.

End Cases.

(** * Properties *)

(** ** Batching of documents into requests *)

Module StreamerProps.

Import Streamer.

Section Batching.

Context {Doc Param : Type}.
Implicit Types (l docs : list Doc) (k fuel i : nat).

Lemma chunks_nil fuel k : chunks fuel k ([] : list Doc) = [].
Proof. by destruct fuel. Qed.

(** The [i]-th batch is the [i]-th window of [k] documents. *)
Lemma chunks_lookup fuel k l i b :
  chunks fuel k l !! i = Some b → b = take k (drop (i * k) l).
Proof.
  revert l i. induction fuel as [|fuel IH]; intros l i; [done|].
  destruct l as [|x l]; [done|]. cbn [chunks].
  destruct i as [|i]; cbn [lookup list_lookup].
  - intros [= <-]. done.
  - intros Hb. apply IH in Hb. rewrite Hb, drop_drop.
    by replace (k + i * k)%nat with (S i * k)%nat by lia.
Qed.

(** The batches, concatenated, give back the documents. *)
Lemma chunks_concat fuel k l :
  (0 < k)%nat → (length l ≤ fuel)%nat → concat (chunks fuel k l) = l.
Proof.
  intros Hk. revert l. induction fuel as [|fuel IH]; intros l Hl.
  - destruct l; [done | cbn in Hl; lia].
  - destruct l as [|x l]; [done|]. cbn [chunks concat].
    rewrite IH; [apply take_drop|].
    rewrite length_drop. cbn [length] in *. lia.
Qed.

Lemma ceil_div_step n k :
  (0 < k)%nat → (0 < n)%nat →
  ((n + k - 1) / k = S ((n - k + k - 1) / k))%nat.
Proof.
  intros Hk Hn. destruct (decide (k ≤ n)%nat) as [Hle|Hlt].
  - replace (n + k - 1)%nat with ((n - k + k - 1) + 1 * k)%nat by lia.
    rewrite Nat.div_add by lia. lia.
  - replace (n - k + k - 1)%nat with (k - 1)%nat by lia.
    rewrite (Nat.div_small (k - 1)) by lia.
    symmetry. apply (Nat.div_unique _ _ _ (n - 1)); lia.
Qed.

(** There are [ceil (n / k)] batches. *)
Lemma chunks_length fuel k l :
  (0 < k)%nat → (length l ≤ fuel)%nat →
  length (chunks fuel k l) = ((length l + k - 1) / k)%nat.
Proof.
  intros Hk. revert l. induction fuel as [|fuel IH]; intros l Hl.
  - destruct l; [|cbn in Hl; lia]. cbn. symmetry. apply Nat.div_small. lia.
  - destruct l as [|x l].
    + cbn. symmetry. apply Nat.div_small. lia.
    + change (chunks (S fuel) k (x :: l))
        with (take k (x :: l) :: chunks fuel k (drop k (x :: l))).
      rewrite length_cons, IH by (rewrite length_drop; cbn [length] in *; lia).
      rewrite length_drop. symmetry. apply ceil_div_step; [done | cbn; lia].
Qed.


(** Whatever the header and the parameters, a request carries its batch. *)
Lemma _req_generator_batches docs (request_size : Z)
    exec_endpoint target_executor (parameters : option (gmap string Param)) :
  0 < request_size →
  ∃ reqs : list (DataRequest Doc Param),
    _req_generator docs request_size exec_endpoint target_executor parameters
      = Return reqs
    ∧ data_docs <$> reqs = chunks (length docs) (Z.to_nat request_size) docs.
Proof.
  intros Hk. unfold _req_generator, batch.
  destruct (Z.leb_spec request_size 0) as [?|_]; [lia|].
  eexists. split; [reflexivity|].
  rewrite <- list_fmap_compose.
  rewrite <- (list_fmap_id (chunks _ _ _)) at 2.
  apply list_fmap_ext. intros _ b _. cbn.
  destruct exec_endpoint as [e|], target_executor as [t|], parameters as [p|];
    repeat (cbn; try case_match); done.
Qed.


Lemma ceil_div_last n k :
  (0 < k)%nat → (n `mod` k ≠ 0)%nat → ((n + k - 1) / k = S (n / k))%nat.
Proof.
  intros Hk Hr. pose proof (Nat.div_mod_eq n k) as Hn.
  pose proof (Nat.mod_upper_bound n k ltac:(lia)) as Hlt.
  symmetry. apply (Nat.div_unique _ _ _ (n `mod` k - 1)); lia.
Qed.

Lemma ceil_div_inner n k i :
  (0 < k)%nat → (S i < (n + k - 1) / k)%nat → (S i * k < n)%nat.
Proof.
  intros Hk Hi.
  pose proof (Nat.Div0.mul_div_le (n + k - 1) k) as Hq. nia.
Qed.

(** C1: for a positive [request_size] [k] and [n] documents, [stream_docs]
    hands [ceil (n / k)] requests to the request streamer; the [i]-th one
    carries the documents [i * k .. i * k + k) of [docs] in their order, so
    all but the last carry [k] documents and the last carries [n mod k] when
    that is not zero; for no documents there is no request and nothing is
    yielded. *)
Theorem stream_docs_batches (self : GatewayStreamer Doc Param) docs
    (request_size : Z) (return_results : bool) exec_endpoint target_executor
    (parameters : option (gmap string Param)) (in_order : bool) :
  0 < request_size →
  (∀ rs, completion (rs_self (_streamer self)) rs ≡ₚ rs) →
  let n := length docs in
  let k := Z.to_nat request_size in
  ∃ reqs : list (DataRequest Doc Param),
    _req_generator docs request_size exec_endpoint target_executor parameters
      = Return reqs
    ∧ stream_docs self docs request_size return_results exec_endpoint
        target_executor parameters in_order
      = Return ((λ resp, if return_results then Response resp
                         else Docs (data_docs resp))
                <$> rpc_stream self {| request_iterator := reqs;
                                       results_in_order := in_order |})
    ∧ Z.of_nat (length reqs) = (Z.of_nat n + request_size - 1) / request_size
    ∧ (∀ i req, reqs !! i = Some req →
         data_docs req = take k (drop (i * k) docs))
    ∧ (∀ i req, reqs !! i = Some req → (S i < length reqs)%nat →
         length (data_docs req) = k)
    ∧ ((n `mod` k ≠ 0)%nat →
         ∃ req, last reqs = Some req ∧ length (data_docs req) = (n `mod` k)%nat)
    ∧ concat (data_docs <$> reqs) = docs
    ∧ (docs = [] →
         reqs = []
         ∧ stream_docs self docs request_size return_results exec_endpoint
             target_executor parameters in_order = Return []).
Proof.
  intros Hpos Hperm n k.
  assert (Hk : (0 < k)%nat) by (subst k; lia).
  destruct (_req_generator_batches docs request_size exec_endpoint
              target_executor parameters Hpos) as (reqs & Hgen & Hdocs).
  fold n k in Hdocs.
  assert (Hlen : length reqs = ((n + k - 1) / k)%nat).
  { rewrite <- (length_fmap data_docs), Hdocs. by apply chunks_length. }
  assert (Hnth : ∀ i req, reqs !! i = Some req →
                   data_docs req = take k (drop (i * k) docs)).
  { intros i req Hi. apply (chunks_lookup n).
    by rewrite <- Hdocs, list_lookup_fmap, Hi. }
  assert (Hstream : stream_docs self docs request_size return_results
            exec_endpoint target_executor parameters in_order
          = Return ((λ resp, if return_results then Response resp
                             else Docs (data_docs resp))
                    <$> rpc_stream self {| request_iterator := reqs;
                                           results_in_order := in_order |})).
  { unfold stream_docs. by rewrite Hgen. }
  exists reqs. split_and!; [done | done | | done | | | | ].
  - rewrite Hlen, Nat2Z.inj_div. f_equal; subst k; lia.
  - intros i req Hi Hlt. rewrite (Hnth i req Hi), length_take, length_drop.
    rewrite Hlen in Hlt. pose proof (ceil_div_inner n k i Hk Hlt). fold n. lia.
  - intros Hr. pose proof (ceil_div_last n k Hk Hr) as Hq.
    destruct (reqs !! (n / k)%nat) as [req|] eqn:Hreq.
    + exists req. split.
      * rewrite last_lookup, Hlen, Hq. done.
      * rewrite (Hnth _ req Hreq), length_take, length_drop. fold n.
        pose proof (Nat.div_mod_eq n k).
        pose proof (Nat.mod_upper_bound n k ltac:(lia)). lia.
    + apply lookup_ge_None in Hreq. lia.
  - rewrite Hdocs. by apply chunks_concat.
  - intros ->. rewrite Hstream.
    destruct reqs as [|r reqs].
    + split; [done|]. unfold rpc_stream, RequestStreamer_stream. cbn.
      destruct in_order; [done|].
      by rewrite (proj1 (Permutation_nil_r _) (Hperm [])).
    + cbn in Hlen. rewrite Nat.div_small in Hlen by lia. done.
Qed.


End Batching.

(** ** Unpacking of executor errors by [stream] *)

Section Errors.

Context {Doc Param : Type}.

Lemma mapM_Response {B} (f : payload Doc Param → result B)
    (g : DataRequest Doc Param → B) (resps : list (DataRequest Doc Param)) :
  (∀ resp, f (Response resp) = Return (g resp)) →
  mapM f (Response <$> resps) = Return (g <$> resps).
Proof.
  intros Hf. induction resps as [|resp resps IH]; [done|].
  rewrite fmap_cons. change (mapM f (Response resp :: (Response <$> resps)))
    with (y ← f (Response resp); k ← mapM f (Response <$> resps); mret (y :: k)).
  rewrite Hf, IH. done.
Qed.

(** C2: [stream] yields one pair per response of the request streamer, in
    the same order; the error of the pair is not [None] exactly when the
    status code of the response is [ERROR], it then has the name, args,
    stacks and executor of the status exception, and it is [None] when the
    code is [OK].  When the request generator raises, so does [stream]. *)
Theorem stream_error_iff_ERROR (self : GatewayStreamer Doc Param)
    (docs : list Doc) (request_size : Z) (return_results : bool)
    exec_endpoint target_executor (parameters : option (gmap string Param))
    (in_order : bool) :
  match _req_generator docs request_size exec_endpoint target_executor
          parameters with
  | Raise e =>
      stream self docs request_size return_results exec_endpoint
        target_executor parameters in_order = Raise e
  | Return reqs =>
      ∃ pairs,
        stream self docs request_size return_results exec_endpoint
          target_executor parameters in_order = Return pairs
        ∧ Forall2
            (λ resp pair,
               pair.1 = (if return_results then Response resp
                         else Docs (data_docs resp))
               ∧ (pair.2 ≠ None ↔ code (status resp) = ERROR)
               ∧ (code (status resp) = ERROR →
                    pair.2 = Some
                      {| name := exc_name (exception (status resp));
                         args := exc_args (exception (status resp));
                         stacks := exc_stacks (exception (status resp));
                         executor := exc_executor (exception (status resp)) |})
               ∧ (code (status resp) = OK → pair.2 = None))
            (rpc_stream self {| request_iterator := reqs;
                                results_in_order := in_order |})
            pairs
  end.
Proof.
  unfold stream, stream_docs.
  destruct (_req_generator _ _ _ _ _) as [reqs|e]; [|done].
  set (resps := rpc_stream self _).
  set (unpack := λ resp : DataRequest Doc Param,
         (if return_results then Response resp else Docs (data_docs resp),
          match code (status resp) with
          | ERROR =>
              Some {| name := exc_name (exception (status resp));
                      args := exc_args (exception (status resp));
                      stacks := exc_stacks (exception (status resp));
                      executor := exc_executor (exception (status resp)) |}
          | OK => None
          end)).
  exists (unpack <$> resps). split.
  - cbn. apply mapM_Response. intros resp. unfold unpack.
    by destruct (code (status resp)), return_results.
  - apply Forall2_fmap_r, Forall_Forall2_diag, Forall_forall.
    intros resp _. unfold unpack. cbn.
    destruct (code (status resp)); naive_solver.
Qed.

End Errors.

(** ** [Call] and [rpc_stream] *)

Section Aliases.

Context {Doc Param : Type}.

(** C5: [Call] is [rpc_stream]; on every argument list both return what
    [stream] of the inner request streamer returns, and the attribute [Call]
    that the constructor gives the inner streamer is its [stream] too. *)
Theorem Call_is_rpc_stream :
  @Call Doc Param = @rpc_stream Doc Param
  ∧ (∀ (self : GatewayStreamer Doc Param) (a : stream_args Doc Param),
       Call self a = rpc_stream self a
       ∧ rpc_stream self a = RequestStreamer_stream (rs_self (_streamer self)) a)
  ∧ (∀ executor_addresses runtime_name (streamer : RequestStreamer Doc Param),
       let self := __init__ executor_addresses runtime_name streamer in
       rs_self (_streamer self) = streamer
       ∧ rs_Call (_streamer self) = Some (RequestStreamer_stream streamer)
       ∧ ∀ a, Call self a = RequestStreamer_stream streamer a).
Proof. done. Qed.

End Aliases.


(** ** Shutdown of the facade *)

Section Close.

Context {Doc Param : Type}.

Lemma PoolClosed_not_in_drain (tasks : list nat) :
  PoolClosed ∉ (FloatingTaskDone <$> tasks) ++ [FloatingDrained].
Proof.
  rewrite elem_of_app, list_elem_of_fmap, list_elem_of_singleton.
  intros [(t & Ht & _)|Ht]; discriminate.
Qed.

Lemma drain_precedes_PoolClosed (tasks : list nat) (pre post : list event) :
  (FloatingTaskDone <$> tasks) ++ [FloatingDrained; PoolClosed]
  = pre ++ PoolClosed :: post →
  FloatingDrained ∈ pre.
Proof.
  intros Heq.
  change ((FloatingTaskDone <$> tasks) ++ [FloatingDrained; PoolClosed])
    with ((FloatingTaskDone <$> tasks) ++ [FloatingDrained] ++ [PoolClosed])
    in Heq.
  rewrite app_assoc in Heq.
  apply app_eq_inv in Heq as [(k & Hl & Hk)|(k & -> & _)]; [|set_solver].
  destruct k as [|e k]; [rewrite app_nil_r in Hl; set_solver|].
  injection Hk as <- _. exfalso.
  apply (PoolClosed_not_in_drain tasks). rewrite Hl. set_solver.
Qed.

(** C3: [close] first awaits [wait_floating_requests_end] and then closes the
    pool.  In what [close] adds to the history, the closing of the pool is
    preceded by the end of the drain; when the pool gets closed the registry
    of floating tasks is empty; and [close] returns exactly when it has done
    both, which it does unless its task is cancelled. *)
Theorem close_drains_then_closes_pool (w : World) :
  ∃ new,
    history (close w).2 = history w ++ new
    ∧ (∀ pre post, new = pre ++ PoolClosed :: post → FloatingDrained ∈ pre)
    ∧ (PoolClosed ∈ new →
         (close w).1 = Return tt
         ∧ floating_tasks (close w).2 = []
         ∧ pool_closed (connection_pool (close w).2) = true)
    ∧ ((close w).1 = Return tt →
         new = (FloatingTaskDone <$> floating_tasks w)
               ++ [FloatingDrained; PoolClosed])
    ∧ (PoolClosed ∉ new →
         (close w).1 = Raise CancelledError
         ∧ pool_closed (connection_pool (close w).2)
           = pool_closed (connection_pool w))
    ∧ (cancel_in w = None → (close w).1 = Return tt).
Proof.
  destruct w as [tasks pool c h].
  unfold close, mbind, io_mbind, io_bind', await, wait_floating_requests_end,
    GrpcConnectionPool_close, io_modify, set_cancel_in.
  destruct c as [[|[|n]]|].
  - (* cancelled at the first await *)
    exists []. cbn. rewrite app_nil_r. split_and!; try done.
    + intros pre post Heq. by destruct pre.
    + intros Hin. by apply elem_of_nil in Hin.
  - (* cancelled at the second await *)
    exists ((FloatingTaskDone <$> tasks) ++ [FloatingDrained]). cbn.
    rewrite <- ?app_assoc. split_and!; try done.
    + intros pre post Heq. exfalso.
      apply (PoolClosed_not_in_drain tasks). rewrite Heq. set_solver.
    + intros Hin. by apply PoolClosed_not_in_drain in Hin.
  - (* cancelled later *)
    exists ((FloatingTaskDone <$> tasks) ++ [FloatingDrained; PoolClosed]). cbn.
    rewrite <- ?app_assoc. split_and!; try done.
    + apply drain_precedes_PoolClosed.
    + intros Hnot. exfalso. apply Hnot. set_solver.
  - (* never cancelled *)
    exists ((FloatingTaskDone <$> tasks) ++ [FloatingDrained; PoolClosed]). cbn.
    rewrite <- ?app_assoc. split_and!; try done.
    + apply drain_precedes_PoolClosed.
    + intros Hnot. exfalso. apply Hnot. set_solver.
Qed.

End Close.


(** ** Warmup *)

Section WarmupProps.

Context {Doc Param : Type}.
Variable pool_warmup : string → bool → result unit.

Lemma add_history_nil (w : World) : add_history [] w = w.
Proof. destruct w. unfold add_history. cbn. by rewrite app_nil_r. Qed.

Lemma add_history_app (es es' : list event) (w : World) :
  add_history es' (add_history es w) = add_history (es ++ es') w.
Proof. unfold add_history. cbn. by rewrite app_assoc. Qed.

Lemma for_each_cons {S X} (x : X) (xs : list X) (body : X → io S unit) (s : S) :
  for_each (x :: xs) body s
  = match body x s with
    | (Return _, s') => for_each xs body s'
    | (Raise e, s') => (Raise e, s')
    end.
Proof. done. Qed.

Lemma for_each_append_task (ds tasks : list string) (w : World) :
  for_each ds append_task (tasks, w)
  = (Return tt, (tasks ++ ds, add_history (TaskCreated <$> ds) w)).
Proof.
  revert tasks w. induction ds as [|d ds IH]; intros tasks w.
  - by rewrite app_nil_r, add_history_nil.
  - rewrite for_each_cons. cbn. rewrite IH, add_history_app.
    by rewrite <- app_assoc.
Qed.

Lemma for_each_cancel (ts held : list string) (w : World) :
  for_each ts (λ task, on_world (log (TaskCancel task))) (held, w)
  = (Return tt, (held, add_history (TaskCancel <$> ts) w)).
Proof.
  revert w. induction ts as [|t ts IH]; intros w.
  - by rewrite add_history_nil.
  - rewrite for_each_cons. cbn. by rewrite IH, add_history_app.
Qed.

(** C7, as the code has it: whatever the per-deployment tasks return or
    raise, [warmup] returns [None] and logs no error, unless the task that
    runs it is cancelled while it awaits the gathered tasks; then it cancels
    every per-deployment task and re-raises [CancelledError]. *)
Theorem warmup_absorbs_task_exceptions (self : GatewayStreamer Doc Param)
    (stop_event : bool) (w : World) :
  let ds := remove_dups (_executor_addresses self).*1 in
  let started := LogDebug "Running GatewayRuntime warmup" :: (TaskCreated <$> ds) in
  match cancel_in w with
  | Some O =>
      warmup pool_warmup self stop_event w
      = (Raise CancelledError,
         set_cancel_in None (add_history (started ++ (TaskCancel <$> ds)) w))
  | c =>
      warmup pool_warmup self stop_event w
      = (Return tt,
         set_cancel_in (pred <$> c)
           (add_history
              (started ++ ((λ d, TaskDone d (pool_warmup d stop_event)) <$> ds))
              w))
  end.
Proof.
  intros ds started. subst ds started.
  destruct w as [fl pool c h]. destruct c as [[|n]|]; cbn [cancel_in];
    unfold warmup;
    unfold mbind at 1, io_mbind, io_bind' at 1; cbn [log io_modify];
    unfold with_tasks, try_except;
    unfold mbind at 1, io_bind' at 1; rewrite for_each_append_task;
    unfold mbind at 1, io_bind' at 1;
    unfold gather_return_exceptions, on_world, await; cbn.
  - unfold mbind, io_mbind, io_bind', cancel_tasks. rewrite for_each_cancel. cbn.
    unfold set_cancel_in, add_history. cbn. by rewrite <- ?app_assoc.
  - unfold set_cancel_in, add_history. cbn. by rewrite <- ?app_assoc.
  - unfold set_cancel_in, add_history. cbn. by rewrite <- ?app_assoc.
Qed.

End WarmupProps.


(** ** Registration of connections *)

Section Pool.

Lemma fold_add_connection (pool : GrpcConnectionPool) (d : string)
    (addrs : list string) :
  fold_left (λ p a, add_connection p d a true) addrs pool
  = {| pool_runtime_name := pool_runtime_name pool;
       pool_connections :=
         pool_connections pool
         ++ ((λ a, {| conn_deployment := d; conn_address := a;
                      conn_head := true |}) <$> addrs);
       pool_closed := pool_closed pool |}.
Proof.
  revert pool. induction addrs as [|a addrs IH]; intros pool.
  - destruct pool. cbn. by rewrite app_nil_r.
  - cbn [fold_left]. rewrite IH. cbn. by rewrite <- app_assoc.
Qed.

Lemma fold_deployments (pool : GrpcConnectionPool)
    (deployments_addresses : list (string * addresses)) :
  pool_connections
    (fold_left
       (λ connection_pool '(deployment_name, addrs),
          fold_left
            (λ connection_pool address,
               add_connection connection_pool deployment_name address true)
            (addresses_iter addrs) connection_pool)
       deployments_addresses pool)
  = pool_connections pool
    ++ (deployments_addresses
        ≫= (λ '(d, addrs),
              (λ a, {| conn_deployment := d; conn_address := a;
                       conn_head := true |}) <$> addresses_iter addrs)).
Proof.
  revert pool.
  induction deployments_addresses as [|[d addrs] das IH]; intros pool.
  - cbn. by rewrite app_nil_r.
  - cbn [fold_left]. rewrite IH, fold_add_connection. cbn.
    by rewrite <- app_assoc.
Qed.

(** The pool holds one registration per element that the iteration over the
    value of each deployment yields, in the order of the iteration. *)
Lemma _create_connection_pool_connections (name : string)
    (deployments_addresses : list (string * addresses)) :
  pool_connections (_create_connection_pool name deployments_addresses)
  = deployments_addresses
    ≫= (λ '(d, addrs),
          (λ a, {| conn_deployment := d; conn_address := a;
                   conn_head := true |}) <$> addresses_iter addrs).
Proof. unfold _create_connection_pool. by rewrite fold_deployments. Qed.

Lemma filter_all {A} (P : A → Prop) `{!∀ x, Decision (P x)} (l : list A) :
  Forall P l → filter P l = l.
Proof.
  induction 1 as [|x l Hx _ IH]; [done|].
  by rewrite filter_cons_True, IH.
Qed.

Lemma filter_none {A} (P : A → Prop) `{!∀ x, Decision (P x)} (l : list A) :
  Forall (λ x, ¬ P x) l → filter P l = [].
Proof.
  induction 1 as [|x l Hx _ IH]; [done|].
  by rewrite filter_cons_False, IH.
Qed.

(** The registrations of a deployment are those of the iteration over its
    own value. *)
Lemma connections_of_deployment (name d : string) (addrs : addresses)
    (deployments_addresses : list (string * addresses)) :
  NoDup deployments_addresses.*1 →
  (d, addrs) ∈ deployments_addresses →
  filter (λ c, conn_deployment c = d)
    (pool_connections (_create_connection_pool name deployments_addresses))
  = (λ a, {| conn_deployment := d; conn_address := a; conn_head := true |})
    <$> addresses_iter addrs.
Proof.
  rewrite _create_connection_pool_connections.
  induction deployments_addresses as [|[d' addrs'] das IH]; intros Hnd Hin.
  - by apply elem_of_nil in Hin.
  - rewrite fmap_cons in Hnd. apply NoDup_cons in Hnd as [Hd' Hnd].
    rewrite bind_cons, filter_app.
    apply elem_of_cons in Hin as [[= Hd Ha]|Hin].
    + subst d' addrs'. rewrite filter_all, filter_none.
      * by rewrite app_nil_r.
      * apply Forall_forall. intros c Hc.
        apply list_elem_of_bind in Hc as ([d2 a2] & Hc & Hd2).
        apply list_elem_of_fmap in Hc as (a & -> & _). cbn. intros <-.
        apply Hd'. apply list_elem_of_fmap. by exists (d2, a2).
      * apply Forall_forall. intros c Hc.
        by apply list_elem_of_fmap in Hc as (a & -> & _).
    + rewrite filter_none; [by apply IH|].
      apply Forall_forall. intros c Hc.
      apply list_elem_of_fmap in Hc as (a & -> & _). cbn. intros ->.
      apply Hd'. apply list_elem_of_fmap. by exists (d, addrs).
Qed.


Lemma length_str_iter (s : string) : length (str_iter s) = String.length s.
Proof. induction s as [|c s IH]; [done|]. cbn. by rewrite IH. Qed.

(** A deployment that is mapped to an address string gets one registration
    per character of the string. *)
Lemma connections_of_address_str (name d s : string)
    (deployments_addresses : list (string * addresses)) :
  NoDup deployments_addresses.*1 →
  (d, AddrStr s) ∈ deployments_addresses →
  length (filter (λ c, conn_deployment c = d)
            (pool_connections (_create_connection_pool name deployments_addresses)))
  = String.length s.
Proof.
  intros Hnd Hin. rewrite (connections_of_deployment _ _ _ _ Hnd Hin).
  by rewrite length_fmap, <- length_str_iter.
Qed.

End Pool.


(** ** Handing the constructor arguments over through the environment *)

Section EnvironmentProps.

Context {Doc Param : Type}.
Variable json_dumps : json → result string.
Variable json_loads : string → result json.
Variable GatewayStreamer_cls :
  list (string * json) → result (GatewayStreamer Doc Param).

(** [get_streamer] reads nothing but the variable [JINA_STREAMER_ARGS]. *)
Lemma get_streamer_reads_JINA_STREAMER_ARGS (environ environ' : gmap string string) :
  environ !! "JINA_STREAMER_ARGS" = environ' !! "JINA_STREAMER_ARGS" →
  get_streamer json_loads GatewayStreamer_cls environ
  = get_streamer json_loads GatewayStreamer_cls environ'.
Proof. unfold get_streamer. by intros ->. Qed.

(** C4, as the code has it: when [json.dumps] accepts the keyword arguments
    and [json.loads] restores them from its output, [_set_env_streamer_args]
    stores that output in the variable [JINA_STREAMER_ARGS], leaves every
    other variable as it was, and [get_streamer], in any environment that
    has this value of the variable, calls the class with exactly these
    keyword arguments. *)
Theorem streamer_args_handoff (kwargs : list (string * json))
    (environ : gmap string string) (value : string) :
  json_dumps (JDict kwargs) = Return value →
  json_loads value = Return (JDict kwargs) →
  ∃ environ',
    _set_env_streamer_args json_dumps kwargs environ = Return environ'
    ∧ environ' !! "JINA_STREAMER_ARGS" = Some value
    ∧ (∀ var, var ≠ "JINA_STREAMER_ARGS" → environ' !! var = environ !! var)
    ∧ get_streamer json_loads GatewayStreamer_cls environ'
      = GatewayStreamer_cls kwargs
    ∧ (∀ child : gmap string string,
         child !! "JINA_STREAMER_ARGS" = Some value →
         get_streamer json_loads GatewayStreamer_cls child
         = GatewayStreamer_cls kwargs).
Proof.
  intros Hdumps Hloads.
  assert (Hchild : ∀ child : gmap string string,
            child !! "JINA_STREAMER_ARGS" = Some value →
            get_streamer json_loads GatewayStreamer_cls child
            = GatewayStreamer_cls kwargs).
  { intros child Hvar. unfold get_streamer. by rewrite Hvar, Hloads. }
  exists (<["JINA_STREAMER_ARGS" := value]> environ).
  unfold _set_env_streamer_args. rewrite Hdumps. split_and!.
  - done.
  - apply lookup_insert_eq.
  - intros var Hvar. by apply lookup_insert_ne.
  - apply Hchild, lookup_insert_eq.
  - done.
Qed.

(** C10: without the variable [JINA_STREAMER_ARGS] in the environment,
    [get_streamer] raises [OSError]; it returns a streamer only when the
    variable is there. *)
Theorem get_streamer_needs_variable (environ : gmap string string) :
  (environ !! "JINA_STREAMER_ARGS" = None →
     get_streamer json_loads GatewayStreamer_cls environ
     = Raise (OSError "JINA_STREAMER_ARGS environment variable is not set"))
  ∧ (∀ gs, get_streamer json_loads GatewayStreamer_cls environ = Return gs →
           is_Some (environ !! "JINA_STREAMER_ARGS")).
Proof.
  unfold get_streamer. split.
  - by intros ->.
  - intros gs. destruct (environ !! "JINA_STREAMER_ARGS"); [eauto | done].
Qed.

End EnvironmentProps.

End StreamerProps.

(** ** The runtime shell *)

Module RuntimeProps.

Import Runtime.

(** *** Signals and the cancel event *)

Lemma call_handler_sets (h : handler) (self : runtime) :
  is_cancel (call_handler h self) = true
  ∧ signal_handlers (call_handler h self) = signal_handlers self.
Proof. by destruct h. Qed.

Lemma find_handler_HANDLED (sig : Signals) (cancel_event : option (event_class * bool)) :
  sig ∈ HANDLED_SIGNALS →
  find_handler sig (signal_handlers (__init__ cancel_event)) = Some (_inner_cancel sig).
Proof.
  intros Hsig. unfold __init__. destruct (default _ _) as [cls flag]. cbn.
  unfold HANDLED_SIGNALS in Hsig.
  repeat (apply elem_of_cons in Hsig as [->|Hsig]; [done|]).
  by apply elem_of_nil in Hsig.
Qed.

Lemma occur_handlers (self : runtime) (o : occurrence) :
  signal_handlers (occur self o) = signal_handlers self.
Proof.
  destruct o as [|sig|]; [done| |done]. cbn. unfold receive.
  destruct (find_handler _ _) as [h|]; [apply call_handler_sets | done].
Qed.

Lemma occur_is_cancel (self : runtime) (o : occurrence) :
  is_cancel self = true → is_cancel (occur self o) = true.
Proof.
  intros Hset. destruct o as [|sig|]; [done| |done]. cbn. unfold receive.
  destruct (find_handler _ _) as [h|]; [apply call_handler_sets | done].
Qed.

(** *** The runtime along a schedule *)

Lemma advance_0 (sched : list occurrence) (self : runtime) :
  advance sched 0 self = self.
Proof. done. Qed.

Lemma advance_nil (ms : nat) (self : runtime) : advance [] ms self = self.
Proof. by destruct ms. Qed.

Lemma advance_cons (o : occurrence) (sched : list occurrence) (ms : nat)
    (self : runtime) :
  advance (o :: sched) (S ms) self = advance sched ms (occur self o).
Proof. done. Qed.

Lemma advance_add (sched : list occurrence) (a b : nat) (self : runtime) :
  advance sched (a + b) self = advance (drop a sched) b (advance sched a self).
Proof.
  unfold advance. by rewrite <- take_take_drop, fold_left_app.
Qed.

Lemma advance_handlers (sched : list occurrence) (ms : nat) (self : runtime) :
  signal_handlers (advance sched ms self) = signal_handlers self.
Proof.
  revert ms self. induction sched as [|o sched IH]; intros ms self.
  - by rewrite advance_nil.
  - destruct ms as [|ms]; [done|]. by rewrite advance_cons, IH, occur_handlers.
Qed.

Lemma advance_is_cancel (sched : list occurrence) (ms : nat) (self : runtime) :
  is_cancel self = true → is_cancel (advance sched ms self) = true.
Proof.
  revert ms self. induction sched as [|o sched IH]; intros ms self Hset.
  - by rewrite advance_nil.
  - destruct ms as [|ms]; [done|]. rewrite advance_cons.
    by apply IH, occur_is_cancel.
Qed.

(** Once set, the cancel event stays set. *)
Lemma advance_mono (sched : list occurrence) (t t' : nat) (self : runtime) :
  (t ≤ t')%nat →
  is_cancel (advance sched t self) = true →
  is_cancel (advance sched t' self) = true.
Proof.
  intros Hle Hset. replace t' with (t + (t' - t))%nat by lia.
  rewrite advance_add. by apply advance_is_cancel.
Qed.


(** *** Waiting *)

(** An awaited event wakes the waiter at the first time at which it is
    set. *)
Lemma Event_wait_Some (sched : list occurrence) (self : runtime) (now t : nat) :
  Event_wait sched self now = Some t →
  ∃ d, t = (now + d)%nat
       ∧ is_cancel (advance sched d self) = true
       ∧ ∀ d', (d' < d)%nat → is_cancel (advance sched d' self) = false.
Proof.
  revert self now. induction sched as [|o sched IH]; intros self now; cbn.
  - destruct (is_cancel self) eqn:Hset; [|done]. intros [= <-].
    exists 0%nat. split_and!; [lia | done | lia].
  - destruct (is_cancel self) eqn:Hset.
    + intros [= <-]. exists 0%nat. split_and!; [lia | done | lia].
    + intros Hw. apply IH in Hw as (d & -> & Hd & Hmin).
      exists (S d). split_and!; [lia | done |].
      intros [|d'] Hlt; [done|]. rewrite advance_cons. apply Hmin. lia.
Qed.

Lemma Event_wait_complete (sched : list occurrence) (self : runtime) (now t0 : nat) :
  is_cancel (advance sched t0 self) = true →
  ∃ t, Event_wait sched self now = Some t ∧ (t ≤ now + t0)%nat.
Proof.
  revert self now t0. induction sched as [|o sched IH]; intros self now t0; cbn.
  - rewrite advance_nil. intros ->. exists now. split; [done | lia].
  - destruct (is_cancel self) eqn:Hset; [exists now; split; [done | lia]|].
    destruct t0 as [|t0]; [rewrite advance_0; congruence|].
    rewrite advance_cons. intros Ht0.
    destruct (IH (occur self o) (S now) t0 Ht0) as (t & Ht & Hle).
    exists t. split; [done | lia].
Qed.

(** The polling loop ends at a poll that finds the event set. *)
Lemma poll_Some (fuel : nat) (sched : list occurrence) (self : runtime) (now t : nat) :
  poll fuel sched self now = Some t →
  ∃ n, t = (now + n * sleep_ms)%nat
       ∧ is_cancel (advance sched (n * sleep_ms) self) = true
       ∧ ∀ m, (m < n)%nat → is_cancel (advance sched (m * sleep_ms) self) = false.
Proof.
  revert sched self now. induction fuel as [|fuel IH]; intros sched self now; cbn.
  - destruct (is_cancel self) eqn:Hset; [|done]. intros [= <-].
    exists 0%nat. split_and!; [lia | done | lia].
  - destruct (is_cancel self) eqn:Hset.
    + intros [= <-]. exists 0%nat. split_and!; [lia | done | lia].
    + destruct sched as [|o sched]; [done|]. intros Hp.
      apply IH in Hp as (n & -> & Hn & Hmin).
      exists (S n). split_and!.
      * lia.
      * replace (S n * sleep_ms)%nat with (sleep_ms + n * sleep_ms)%nat by lia.
        by rewrite advance_add.
      * intros [|m] Hlt; [done|].
        replace (S m * sleep_ms)%nat with (sleep_ms + m * sleep_ms)%nat by lia.
        rewrite advance_add. apply Hmin. lia.
Qed.

Lemma poll_set (fuel : nat) (sched : list occurrence) (self : runtime) (now : nat) :
  is_cancel self = true → poll fuel sched self now = Some now.
Proof. intros Hset. destruct fuel; cbn; by rewrite Hset. Qed.

(** With the length of the schedule as fuel, the polling loop ends less
    than one sleep after the event is set. *)
Lemma poll_complete (fuel : nat) (sched : list occurrence) (self : runtime)
    (now t0 : nat) :
  (length sched ≤ fuel)%nat →
  is_cancel (advance sched t0 self) = true →
  ∃ t, poll fuel sched self now = Some t ∧ (t < now + t0 + sleep_ms)%nat.
Proof.
  revert sched self now t0.
  induction fuel as [|fuel IH]; intros sched self now t0 Hfuel Ht0; cbn.
  - destruct sched; [|cbn in Hfuel; lia]. rewrite advance_nil in Ht0.
    rewrite Ht0. exists now. split; [done | unfold sleep_ms; lia].
  - destruct (is_cancel self) eqn:Hset.
    { exists now. split; [done | unfold sleep_ms; lia]. }
    destruct sched as [|o sched]; [rewrite advance_nil in Ht0; congruence|].
    destruct (decide (t0 ≤ sleep_ms)%nat) as [Hle|Hgt].
    + exists (now + sleep_ms)%nat. split.
      * apply poll_set. by apply (advance_mono _ t0).
      * destruct t0 as [|t0]; [rewrite advance_0 in Ht0; congruence | lia].
    + destruct (IH (drop sleep_ms (o :: sched))
                  (advance (o :: sched) sleep_ms self) (now + sleep_ms)%nat
                  (t0 - sleep_ms)%nat)
        as (t & Ht & Hlt).
      * rewrite length_drop. cbn [length] in *. unfold sleep_ms. lia.
      * rewrite <- advance_add. by replace (sleep_ms + (t0 - sleep_ms))%nat with t0 by lia.
      * exists t. split; [done | lia].
Qed.


(** *** [run_forever] *)

Section RunForever.

Variable async_run_forever : option nat → coro unit.
Variable async_cancel : result unit.

(** [_wait_for_cancel] is done only once the event is set, and it ends as
    the call of [async_cancel] ends. *)
Lemma _wait_for_cancel_Done (sched : list occurrence) (self : runtime)
    (t : nat) (r : result unit) :
  _wait_for_cancel async_cancel sched self = Done t r →
  r = async_cancel ∧ is_cancel (advance sched t self) = true.
Proof.
  unfold _wait_for_cancel.
  destruct (is_asyncio_Event _).
  - destruct (Event_wait sched self 0) as [t'|] eqn:Hw; [|done].
    intros [= <- <-]. apply Event_wait_Some in Hw as (d & -> & Hd & _). done.
  - destruct (poll _ sched self 0) as [t'|] eqn:Hp; [|done].
    intros [= <- <-]. apply poll_Some in Hp as (n & -> & Hn & _). done.
Qed.

(** When the event gets set, [_wait_for_cancel] calls [async_cancel]: at once
    if it awaits the event, less than one sleep later if it polls it. *)
Lemma _wait_for_cancel_complete (sched : list occurrence) (self : runtime)
    (t0 : nat) :
  is_cancel (advance sched t0 self) = true →
  ∃ t, _wait_for_cancel async_cancel sched self = Done t async_cancel
       ∧ (if is_asyncio_Event (is_cancel_class self)
          then (t ≤ t0)%nat else (t < t0 + sleep_ms)%nat).
Proof.
  intros Ht0. unfold _wait_for_cancel.
  destruct (is_asyncio_Event _).
  - destruct (Event_wait_complete sched self 0 t0 Ht0) as (t & -> & Hle).
    by exists t.
  - destruct (poll_complete (length sched) sched self 0 t0 (le_n _) Ht0)
      as (t & -> & Hlt).
    by exists t.
Qed.

(** C6, as the code has it.  At any time after the construction of the
    runtime, a handled signal sets the cancel event.
    [_wait_for_cancel] is done only once the event is set, awaiting it or
    polling it with sleeps of 100 ms, and then calls [async_cancel].
    [run_forever] returns either after the event has been set and both
    [async_cancel] and [async_run_forever] have returned, or after a
    [CancelledError] in its body, which it catches and logs. *)
Theorem run_forever_returns :
  (∀ sig cancel_event sched ms,
     sig ∈ HANDLED_SIGNALS →
     is_cancel (receive sig (advance sched ms (__init__ cancel_event))) = true)
  ∧ (∀ sched self t r,
       _wait_for_cancel async_cancel sched self = Done t r →
       r = async_cancel ∧ is_cancel (advance sched t self) = true)
  ∧ (∀ sched self t0,
       is_cancel (advance sched t0 self) = true →
       ∃ t, _wait_for_cancel async_cancel sched self = Done t async_cancel
            ∧ (t < t0 + sleep_ms)%nat)
  ∧ (∀ sched self t self',
       run_forever async_run_forever async_cancel sched self
       = (Done t (Return tt), self') →
       (self' = advance sched t self
        ∧ is_cancel self' = true
        ∧ async_cancel = Return tt
        ∧ ∃ ta tb,
            _wait_for_cancel async_cancel sched self = Done tb (Return tt)
            ∧ async_run_forever (Some tb) = Done ta (Return tt)
            ∧ t = Nat.max ta tb)
       ∨ (self' = logger_write
                    (Warning "received terminate ctrl message from main process")
                    (advance sched t self)
          ∧ (async_run_forever
               (done_at (_wait_for_cancel async_cancel sched self))
             = Done t (Raise CancelledError)
             ∨ _wait_for_cancel async_cancel sched self
               = Done t (Raise CancelledError)))).
Proof.
  split_and!.
  - intros sig ce sched ms Hsig. unfold receive.
    rewrite advance_handlers, (find_handler_HANDLED sig ce Hsig).
    apply call_handler_sets.
  - apply _wait_for_cancel_Done.
  - intros sched self t0 Ht0.
    destruct (_wait_for_cancel_complete sched self t0 Ht0) as (t & Hw & Ht).
    exists t. split; [done|].
    destruct (is_asyncio_Event _); unfold sleep_ms in *; lia.
  - intros sched self t self'. unfold run_forever, _loop_body.
    destruct (_wait_for_cancel async_cancel sched self) as [tb rb|] eqn:Hw;
      cbn [done_at].
    + destruct (_wait_for_cancel_Done _ _ _ _ Hw) as [-> Hset].
      destruct (async_run_forever (Some tb)) as [ta ra|] eqn:Ha;
        destruct async_cancel as [[]|eb] eqn:Hc; try destruct ra as [[]|ea];
        cbn [gather]; repeat case_match; intros [= <- <-]; simplify_eq;
        first
          [ left; split_and!;
            [ done | apply (advance_mono _ tb); [lia | done] | done
            | by exists ta, tb ]
          | right; split; [done|];
            repeat match goal with
                   | e : exn |- _ => destruct e; try discriminate
                   end; by eauto ].
    + destruct (async_run_forever None) as [ta ra|] eqn:Ha;
        try destruct ra as [[]|ea]; cbn [gather];
        repeat case_match; intros [= <- <-]; simplify_eq.
      right. split; [done|]. left. by destruct ea.
Qed.

End RunForever.


(** *** Readiness *)

Section ReadinessProps.

Context {Timeout : Type}.

Lemma ready_iff (check : result HealthCheckResponse) :
  (try_ (response ← check;
         mret (ServingStatus_eqb (hc_status response) SERVING))
        is_RpcError (mret false)
   = Return true
   ↔ ∃ response, check = Return response ∧ hc_status response = SERVING)
  ∧ (check = Raise RpcError →
     try_ (response ← check;
           mret (ServingStatus_eqb (hc_status response) SERVING))
          is_RpcError (mret false)
     = Return false).
Proof.
  split.
  - destruct check as [[st]|e]; cbn.
    + split.
      * intros [= Hst]. exists {| hc_status := st |}. by destruct st.
      * intros (response & [= <-] & Hst). cbn in Hst. by rewrite Hst.
    + split; [by destruct e | by intros (response & ? & _)].
  - by intros ->.
Qed.

(** C8: [is_ready] and [async_is_ready] return [True] exactly when the
    health check answers with the status [SERVING], and they return [False]
    when the health check raises [RpcError]. *)
Theorem is_ready_iff_SERVING
    (send_health_check_sync send_health_check_async :
       string → Timeout → result HealthCheckResponse)
    (ctrl_address : string) (timeout : Timeout) :
  (is_ready send_health_check_sync ctrl_address timeout = Return true
   ↔ ∃ response,
       send_health_check_sync ctrl_address timeout = Return response
       ∧ hc_status response = SERVING)
  ∧ (send_health_check_sync ctrl_address timeout = Raise RpcError →
     is_ready send_health_check_sync ctrl_address timeout = Return false)
  ∧ (async_is_ready send_health_check_async ctrl_address timeout = Return true
     ↔ ∃ response,
         send_health_check_async ctrl_address timeout = Return response
         ∧ hc_status response = SERVING)
  ∧ (send_health_check_async ctrl_address timeout = Raise RpcError →
     async_is_ready send_health_check_async ctrl_address timeout = Return false).
Proof.
  unfold is_ready, async_is_ready.
  destruct (ready_iff (send_health_check_sync ctrl_address timeout)).
  destruct (ready_iff (send_health_check_async ctrl_address timeout)).
  done.
Qed.

End ReadinessProps.

End RuntimeProps.

(** ** Scenarios *)

Module ScenarioProps.

Import Streamer Runtime StreamerProps RuntimeProps Scenario.

(** Three documents in requests of two: two requests, [d1; d2] and [d3]. *)
Example linear_topology_requests :
  _req_generator (Param := string) docs3 2 None None None
  = Return [set_docs DataRequest_new ["d1"; "d2"]%string;
            set_docs DataRequest_new ["d3"]%string].
Proof. reflexivity. Qed.

(** The batching theorem at three documents, requests of two and the
    endpoint [/index]. *)
Lemma stream_docs_batches_witness :
  ∃ reqs : list (DataRequest string string),
    _req_generator docs3 2 (Some "/index"%string) None None = Return reqs
    ∧ Z.of_nat (length reqs) = 2
    ∧ concat (data_docs <$> reqs) = docs3
    ∧ ∃ req, last reqs = Some req ∧ length (data_docs req) = 1%nat.
Proof.
  destruct (stream_docs_batches gateway docs3 2 false (Some "/index"%string)
              None None false)
    as (reqs & Hgen & _ & Hlen & _ & _ & Hlast & Hcat & _).
  - lia.
  - intros rs. apply reverse_Permutation.
  - exists reqs. split_and!; [done | done | done |]. by apply Hlast.
Defined.


(** The responses of the two requests come back in reverse order, and the
    second one is yielded first. *)
Example linear_topology_stream :
  stream_docs (Param := string) gateway docs3 2 false None None None false
  = Return [Docs ["d3"]%string; Docs ["d1"; "d2"]%string].
Proof. reflexivity. Qed.

(** C9 fails on the code for a deployment that is mapped to a single address
    string: the loop over the string registers one connection per character
    of the address, here twelve, none of them at the address. *)
Theorem create_connection_pool_address_string :
  pool_connections (_create_connection_pool "custom gateway" executor_address_str)
  = (λ a, {| conn_deployment := "executor0"; conn_address := a;
             conn_head := true |})
    <$> ["0"; "."; "0"; "."; "0"; "."; "0"; ":"; "8"; "0"; "8"; "1"]%string.
Proof. reflexivity. Qed.

(** A list of two addresses gets its two connections. *)
Example create_connection_pool_address_list :
  pool_connections (_connection_pool gateway)
  = [{| conn_deployment := "executor0"; conn_address := "0.0.0.0:8081";
        conn_head := true |};
     {| conn_deployment := "executor0"; conn_address := "0.0.0.0:8082";
        conn_head := true |}].
Proof. reflexivity. Qed.

(** The handoff theorem at the keyword arguments of the scenario, with the
    model of [json]: the child process gets the gateway back. *)
Lemma streamer_args_handoff_witness :
  ∃ environ',
    _set_env_streamer_args Json.dumps kwargs ∅ = Return environ'
    ∧ get_streamer Json.loads GatewayStreamer_cls environ' = Return gateway.
Proof.
  edestruct (streamer_args_handoff Json.dumps Json.loads GatewayStreamer_cls
               kwargs ∅)
    as (environ' & Hset & _ & _ & Hget & _).
  - vm_compute. reflexivity.
  - vm_compute. reflexivity.
  - exists environ'. split; [done|]. rewrite Hget. reflexivity.
Defined.

(** C4 fails on the code as to the name of the variable: after
    [_set_env_streamer_args], [GATEWAY_STREAMER_ARGS] is still unset and
    [JINA_STREAMER_ARGS] holds the serialization, and an environment that
    has the serialization under [GATEWAY_STREAMER_ARGS] only makes
    [get_streamer] raise [OSError]. *)
Lemma streamer_args_not_in_GATEWAY_STREAMER_ARGS :
  ∃ environ' value,
    Json.dumps (JDict kwargs) = Return value
    ∧ _set_env_streamer_args Json.dumps kwargs ∅ = Return environ'
    ∧ environ' !! "GATEWAY_STREAMER_ARGS" = None
    ∧ environ' !! "JINA_STREAMER_ARGS" = Some value
    ∧ get_streamer Json.loads GatewayStreamer_cls
        {["GATEWAY_STREAMER_ARGS" := value]}
      = Raise (OSError "JINA_STREAMER_ARGS environment variable is not set").
Proof.
  destruct (Json.dumps (JDict kwargs)) as [value|e] eqn:Hdumps;
    [|by vm_compute in Hdumps].
  exists (<["JINA_STREAMER_ARGS" := value]> ∅), value.
  unfold _set_env_streamer_args, get_streamer. rewrite Hdumps.
  split_and!; [done | done | | |].
  - by rewrite lookup_insert_ne.
  - by rewrite lookup_insert_eq.
  - by rewrite lookup_singleton_ne.
Qed.

(** Without cancellation, [close] drains the two floating tasks and then
    closes the pool. *)
Example close_history :
  history (close world).2
  = [FloatingTaskDone 7; FloatingTaskDone 9; FloatingDrained; PoolClosed].
Proof. reflexivity. Qed.

(** Two failing warmup tasks: [warmup] returns all the same. *)
Example warmup_failing_tasks :
  (warmup (λ _ _, Raise RpcError) gateway false world).1 = Return tt.
Proof. reflexivity. Qed.

(** C7 fails on the code when the task that runs [warmup] is cancelled: the
    handler of [CancelledError] cancels the warmup task of the deployment
    and raises the exception again, and [except Exception] lets it pass. *)
Lemma warmup_reraises_CancelledError :
  warmup (λ _ _, Return tt) gateway false world_cancelled
  = (Raise CancelledError,
     add_history [LogDebug "Running GatewayRuntime warmup";
                  TaskCreated "executor0"; TaskCancel "executor0"] world)
  ∧ (warmup (λ _ _, Return tt) gateway false world_cancelled).1 ≠ Return tt.
Proof. split; [reflexivity | discriminate]. Qed.

(** C6 fails on the code when the server's task is cancelled: [run_forever]
    returns after 5 ms although no signal has arrived and the cancel event
    is not set. *)
Lemma run_forever_event_unset :
  ∃ self',
    run_forever server_cancelled (Return tt) quiet (Runtime.__init__ None)
    = (Done 5 (Return tt), self')
    ∧ is_cancel self' = false
    ∧ _wait_for_cancel (Return tt) quiet (Runtime.__init__ None) = Suspended.
Proof. eexists. split_and!; reflexivity. Qed.

(** A signal after 250 ms of a threading event that is polled: the loop
    notices it at 300 ms. *)
Example poll_after_signal :
  _wait_for_cancel (Return tt)
    (replicate 250 Quiet ++ [Signal SIGTERM] ++ replicate 200 Quiet)
    (Runtime.__init__ (Some (threading_Event, false)))
  = Done 300 (Return tt).
Proof. vm_compute. reflexivity. Qed.


(** A process that jina does not control has no streamer arguments. *)
Example get_streamer_outside_jina :
  get_streamer Json.loads GatewayStreamer_cls {["PATH" := "/usr/bin"]}
  = Raise (OSError "JINA_STREAMER_ARGS environment variable is not set").
Proof. reflexivity. Qed.

(** A runtime that has not finished its setup answers [NOT_SERVING], one
    that cannot be reached makes the health check raise. *)
Example is_ready_examples :
  is_ready (λ _ (_ : Z), Return {| hc_status := SERVING |}) "0.0.0.0:8080" 1
  = Return true
  ∧ is_ready (λ _ (_ : Z), Return {| hc_status := NOT_SERVING |}) "0.0.0.0:8080" 1
    = Return false
  ∧ is_ready (λ _ (_ : Z), Raise RpcError) "0.0.0.0:8080" 1 = Return false.
Proof. done. Qed.

End ScenarioProps.

(** ** Posting to one executor *)

Module ExecutorStreamerProps.

Import Streamer StreamerProps ExecutorStreamer.

Section PostProps.

Context {Doc Param Meta : Type}.
Variable header_value : option string → result string.
Variable parameters_value :
  option (gmap string Param) → result (gmap string Param).
Variable send_requests_once :
  list (DataRequest Doc Param) → string → bool → option string →
  result (DataRequest Doc Param * Meta).


Lemma fold_left_extend (outs : list (DataRequest Doc Param * Meta))
    (docs : list Doc) :
  fold_left (λ docs '(resp, _), docs ++ data_docs resp) outs docs
  = docs ++ concat ((λ out, data_docs out.1) <$> outs).
Proof.
  revert docs. induction outs as [|[resp m] outs IH]; intros docs; cbn.
  - by rewrite app_nil_r.
  - by rewrite IH, app_assoc.
Qed.



(** When every send returns, [post] returns the documents of the responses,
    concatenated in the order of the batches. *)
Lemma post_concat (executor_name : string) (inputs : list Doc)
    (request_size : Z) on parameters reqs
    (outs : list (DataRequest Doc Param * Meta)) :
  post_requests header_value parameters_value executor_name inputs
    request_size on parameters = Return reqs →
  Forall2 (λ req out, send_requests_once [req] executor_name true on = Return out)
    reqs outs →
  post header_value parameters_value send_requests_once executor_name inputs
    request_size on parameters
  = Return (concat ((λ out, data_docs out.1) <$> outs)).
Proof.
  intros Hreqs Houts. unfold post. rewrite Hreqs. cbn.
  assert (Hg : gather_results
                 (map (run_task send_requests_once)
                    (post_tasks executor_name on reqs)) = Return outs).
  { unfold gather_results, post_tasks. rewrite map_map. clear Hreqs.
    induction Houts as [|req out reqs' outs' Hout _ IH]; [done|].
    cbn [map]. unfold run_task at 1. cbn [call_requests call_deployment
      call_head call_endpoint].
    change (mapM ?f (?x :: ?l)) with (y ← f x; k ← mapM f l; mret (y :: k)).
    cbv beta. by rewrite Hout, IH. }
  rewrite Hg. cbn. by rewrite fold_left_extend.
Qed.


(** Without inputs [post] sends nothing and returns no documents, whatever
    [on] and [parameters] are. *)
Theorem post_empty (executor_name : string) (request_size : Z) on parameters :
  0 < request_size →
  post_requests header_value parameters_value executor_name ([] : list Doc)
    request_size on parameters = Return []
  ∧ post header_value parameters_value send_requests_once executor_name []
      request_size on parameters = Return [].
Proof.
  intros Hk. unfold post, post_requests, batch.
  by destruct (Z.leb_spec request_size 0) as [?|_]; [lia|].
Qed.

(** [post] returns exactly when every send returns: one failing send makes
    the whole call raise. *)
Theorem post_returns_iff (executor_name : string) (inputs : list Doc)
    (request_size : Z) on parameters reqs :
  post_requests header_value parameters_value executor_name inputs
    request_size on parameters = Return reqs →
  (∃ docs, post header_value parameters_value send_requests_once executor_name
             inputs request_size on parameters = Return docs)
  ↔ Forall (λ req, ∃ out, send_requests_once [req] executor_name true on
                          = Return out) reqs.
Proof.
  intros Hreqs. split.
  - intros [docs Hpost]. unfold post in Hpost. rewrite Hreqs in Hpost.
    cbn in Hpost.
    destruct (gather_results _) as [outs|e] eqn:Hg; [clear Hpost|done].
    unfold gather_results, post_tasks in Hg. rewrite map_map in Hg.
    clear Hreqs. revert outs Hg.
    induction reqs as [|req reqs' IH]; intros outs Hg; [done|].
    cbn [map] in Hg. unfold run_task at 1 in Hg.
    cbn [call_requests call_deployment call_head call_endpoint] in Hg.
    change (mapM ?f (?x :: ?l)) with (y ← f x; k ← mapM f l; mret (y :: k)) in Hg.
    cbv beta in Hg.
    destruct (send_requests_once [req] executor_name true on) as [out|e] eqn:Hs;
      [|done].
    cbn in Hg. destruct (mapM _ _) as [outs'|e] eqn:Hm; [|done].
    constructor; [by exists out | by apply (IH outs')].
  - intros Hall.
    assert (∃ outs, Forall2 (λ req out,
              send_requests_once [req] executor_name true on = Return out)
              reqs outs) as [outs Houts].
    { clear Hreqs. induction Hall as [|req reqs' [out Hout] _ [outs IH]].
      - by exists [].
      - exists (out :: outs). by constructor. }
    eexists. by apply (post_concat _ _ _ _ _ reqs outs).
Qed.

(** An endpoint that cannot be assigned to the header of a request, as the
    default [on=None] when the header takes strings only, makes [post] raise
    the exception of the assignment as soon as there is an input, before
    anything is sent; without inputs nothing is assigned and [post] returns
    no documents. *)
Theorem post_assignment_raises (executor_name : string) (inputs : list Doc)
    (request_size : Z) on parameters (e : exn) :
  0 < request_size →
  header_value on = Raise e →
  post_requests header_value parameters_value executor_name inputs
    request_size on parameters
  = match inputs with
    | [] => Return []
    | _ :: _ => Raise e
    end
  ∧ post header_value parameters_value send_requests_once executor_name inputs
      request_size on parameters
    = match inputs with
      | [] => Return []
      | _ :: _ => Raise e
      end.
Proof.
  intros Hk He.
  assert (Hreqs : post_requests header_value parameters_value executor_name
                    inputs request_size on parameters
                  = match inputs with
                    | [] => Return []
                    | _ :: _ => Raise e
                    end).
  { unfold post_requests, batch.
    destruct (Z.leb_spec request_size 0) as [?|_]; [lia|].
    destruct inputs as [|x inputs]; [done|]. cbn [length chunks].
    cbn [mbind result_bind bind].
    change (mapM ?f (?b :: ?l)) with (y ← f b; k ← mapM f l; mret (y :: k)).
    cbv beta. by rewrite He. }
  split; [exact Hreqs|].
  unfold post. rewrite Hreqs. by destruct inputs.
Qed.

End PostProps.

End ExecutorStreamerProps.

(** ** More on the facade *)

Module FacadeProps.

Import Streamer StreamerProps.

Section Requests.

Context {Doc Param : Type}.


(** The payloads that [stream] pairs with the errors are what [stream_docs]
    yields for the same arguments, in the same order; [stream] raises when
    [stream_docs] does. *)
Theorem stream_payloads (self : GatewayStreamer Doc Param) (docs : list Doc)
    (request_size : Z) (return_results : bool)
    exec_endpoint target_executor (parameters : option (gmap string Param))
    (in_order : bool) :
  match stream self docs request_size return_results exec_endpoint
          target_executor parameters in_order with
  | Return pairs =>
      stream_docs self docs request_size return_results exec_endpoint
        target_executor parameters in_order = Return pairs.*1
  | Raise e =>
      stream_docs self docs request_size return_results exec_endpoint
        target_executor parameters in_order = Raise e
  end.
Proof.
  unfold stream, stream_docs.
  destruct (_req_generator _ _ _ _ _) as [reqs|e]; [|done].
  cbn. set (resps := rpc_stream self _).
  rewrite (mapM_Response _
             (λ resp, (if return_results then Response resp
                       else Docs (data_docs resp),
                       if StatusType_eqb ERROR (code (status resp))
                       then Some {| name := exc_name (exception (status resp));
                                    args := exc_args (exception (status resp));
                                    stacks := exc_stacks (exception (status resp));
                                    executor := exc_executor (exception (status resp)) |}
                       else None))).
  - f_equal. rewrite <- list_fmap_compose. by apply list_fmap_ext.
  - intros resp. by destruct return_results.
Qed.

(** Over a request streamer that keeps the documents of every request,
    [stream_docs] yields the batches of [docs]: in the order of [docs] when
    the results are asked for in order, so that the yielded documents put
    together are [docs], and in some order otherwise. *)
Theorem stream_docs_round_trip (self : GatewayStreamer Doc Param)
    (docs : list Doc) (request_size : Z)
    exec_endpoint target_executor (parameters : option (gmap string Param))
    (in_order : bool) :
  0 < request_size →
  (∀ req, data_docs (request_handler (rs_self (_streamer self)) req)
          = data_docs req) →
  (∀ rs, completion (rs_self (_streamer self)) rs ≡ₚ rs) →
  ∃ yielded : list (list Doc),
    stream_docs self docs request_size false exec_endpoint target_executor
      parameters in_order = Return (Docs <$> yielded)
    ∧ yielded ≡ₚ chunks (length docs) (Z.to_nat request_size) docs
    ∧ (in_order = true →
         yielded = chunks (length docs) (Z.to_nat request_size) docs
         ∧ concat yielded = docs).
Proof.
  intros Hk Hkeep Hperm.
  destruct (_req_generator_batches docs request_size exec_endpoint
              target_executor parameters Hk) as (reqs & Hgen & Hdocs).
  unfold stream_docs. rewrite Hgen. cbn.
  set (resps := rpc_stream self _).
  exists (data_docs <$> resps). split_and!.
  - f_equal. change (map ?f ?l) with (f <$> l).
    by rewrite <- list_fmap_compose.
  - subst resps. unfold rpc_stream, RequestStreamer_stream. cbn.
    change (map ?f ?l) with (f <$> l).
    assert (Hh : data_docs <$> (request_handler (rs_self (_streamer self)) <$> reqs)
                 = chunks (length docs) (Z.to_nat request_size) docs).
    { rewrite <- Hdocs, <- list_fmap_compose. apply list_fmap_ext.
      intros i req _. apply Hkeep. }
    destruct in_order; [by rewrite Hh|].
    rewrite <- Hh. apply fmap_Permutation, Hperm.
  - intros ->. subst resps. unfold rpc_stream, RequestStreamer_stream. cbn.
    change (map ?f ?l) with (f <$> l).
    assert (Hh : data_docs <$> (request_handler (rs_self (_streamer self)) <$> reqs)
                 = chunks (length docs) (Z.to_nat request_size) docs).
    { rewrite <- Hdocs, <- list_fmap_compose. apply list_fmap_ext.
      intros i req _. apply Hkeep. }
    rewrite Hh. split; [done|]. apply chunks_concat; lia.
Qed.

End Requests.

Section Connections.



End Connections.

Section EnvironmentTwice.

Context {Doc Param : Type}.
Variable json_dumps : json → result string.
Variable json_loads : string → result json.
Variable GatewayStreamer_cls :
  list (string * json) → result (GatewayStreamer Doc Param).

(** The arguments that are set last are the ones a later [get_streamer]
    gets: a second [_set_env_streamer_args] replaces the value of the first
    and leaves the environment as if the first had not happened; arguments
    that [json.dumps] rejects leave no environment behind. *)
Theorem _set_env_streamer_args_overwrites
    (kwargs1 kwargs2 : list (string * json)) (environ : gmap string string)
    (value1 value2 : string) :
  json_dumps (JDict kwargs1) = Return value1 →
  json_dumps (JDict kwargs2) = Return value2 →
  json_loads value2 = Return (JDict kwargs2) →
  ∃ environ1 environ2,
    _set_env_streamer_args json_dumps kwargs1 environ = Return environ1
    ∧ _set_env_streamer_args json_dumps kwargs2 environ1 = Return environ2
    ∧ _set_env_streamer_args json_dumps kwargs2 environ = Return environ2
    ∧ get_streamer json_loads GatewayStreamer_cls environ2
      = GatewayStreamer_cls kwargs2
    ∧ ∀ kwargs e, json_dumps (JDict kwargs) = Raise e →
        _set_env_streamer_args json_dumps kwargs environ2 = Raise e.
Proof.
  intros H1 H2 Hl. unfold _set_env_streamer_args. rewrite H1, H2. cbn.
  eexists _, _. split_and!; [done | done | | |].
  - by rewrite insert_insert_eq.
  - unfold get_streamer. by rewrite lookup_insert_eq, Hl.
  - by intros kwargs e ->.
Qed.

End EnvironmentTwice.

End FacadeProps.

(** ** More on the runtime shell *)

Module ShellProps.

Import Runtime RuntimeProps.

Lemma find_handler_not_HANDLED (sig : Signals)
    (cancel_event : option (event_class * bool)) :
  sig ∉ HANDLED_SIGNALS →
  find_handler sig (signal_handlers (__init__ cancel_event)) = None.
Proof.
  intros Hsig. unfold __init__. destruct (default _ _) as [cls flag]. cbn.
  unfold HANDLED_SIGNALS in Hsig.
  destruct sig; cbn; try done; exfalso; apply Hsig; set_solver.
Qed.

(** A signal other than the three handled ones never reaches the runtime:
    at any time after the construction it leaves the cancel event, the
    handlers and the log as they are. *)
Theorem receive_unhandled (sig : Signals)
    (cancel_event : option (event_class * bool))
    (sched : list occurrence) (ms : nat) :
  sig ∉ HANDLED_SIGNALS →
  receive sig (advance sched ms (__init__ cancel_event))
  = advance sched ms (__init__ cancel_event).
Proof.
  intros Hsig. unfold receive.
  by rewrite advance_handlers, find_handler_not_HANDLED.
Qed.

Section Subclass.

Variable async_run_forever : option nat → coro unit.
Variable async_cancel : result unit.

(** [run_forever] never raises [CancelledError]; any other exception it
    raises is the first one raised by [async_run_forever] or by the call of
    [async_cancel], and the runtime is left as the schedule has it then,
    without a warning. *)
Theorem run_forever_raises (sched : list occurrence) (self : runtime)
    (t : nat) (e : exn) (self' : runtime) :
  run_forever async_run_forever async_cancel sched self
  = (Done t (Raise e), self') →
  e ≠ CancelledError
  ∧ self' = advance sched t self
  ∧ (async_run_forever (done_at (_wait_for_cancel async_cancel sched self))
     = Done t (Raise e)
     ∨ _wait_for_cancel async_cancel sched self = Done t (Raise e)).
Proof.
  unfold run_forever, _loop_body.
  destruct (_wait_for_cancel async_cancel sched self) as [tb rb|] eqn:Hw;
    cbn [done_at].
  - destruct (async_run_forever (Some tb)) as [ta ra|];
      destruct rb as [[]|eb]; try destruct ra as [[]|ea];
      cbn [gather]; repeat case_match; intros [= <- <- <-]; simplify_eq;
      split_and!; try done; try (by intros ->); eauto.
  - destruct (async_run_forever None) as [ta ra|];
      try destruct ra as [[]|ea]; cbn [gather];
      repeat case_match; intros [= <- <- <-]; simplify_eq;
      split_and!; try done; try (by intros ->); eauto.
Qed.

(** When [_wait_for_cancel] calls [async_cancel]: with an [asyncio.Event] at
    the first millisecond at which the event is set, with another event at
    the first of its polls, 100 ms apart, that finds the event set. *)
Theorem _wait_for_cancel_wakes (sched : list occurrence) (self : runtime)
    (t : nat) (r : result unit) :
  _wait_for_cancel async_cancel sched self = Done t r →
  is_cancel (advance sched t self) = true
  ∧ if is_asyncio_Event (is_cancel_class self)
    then ∀ t', (t' < t)%nat → is_cancel (advance sched t' self) = false
    else ∃ n, t = (n * 100)%nat
              ∧ ∀ m, (m < n)%nat →
                  is_cancel (advance sched (m * 100) self) = false.
Proof.
  unfold _wait_for_cancel. destruct (is_asyncio_Event _).
  - destruct (Event_wait sched self 0) as [t'|] eqn:Hw; [|done].
    intros [= <- <-]. by apply Event_wait_Some in Hw as (d & -> & Hd & Hmin).
  - destruct (poll _ sched self 0) as [t'|] eqn:Hp; [|done].
    intros [= <- <-]. apply poll_Some in Hp as (n & -> & Hn & Hmin).
    split; [done|]. by exists n.
Qed.

End Subclass.

End ShellProps.

(** ** Teardown and telemetry *)

Module LifecycleProps.

Import Lifecycle.

Section ShellProps.

Context {Time : Type}.
Variable time_sub : Time → Time → Time.
Variable uuid1_hex : nat → string.
Variable async_teardown : result unit.
Variable base_teardown : result unit.
Variable stop_time : Time.

Implicit Types (s : shell Time) (p : provider).

Lemma io_bind_run {S A B} (c : io S A) (k : A → io S B) (s : S) :
  (c ≫= k) s
  = match c s with
    | (Return a, s') => k a s'
    | (Raise e, s') => (Raise e, s')
    end.
Proof. done. Qed.

Lemma add_effects_nil s : add_effects [] s = s.
Proof. destruct s. unfold add_effects. cbn. by rewrite app_nil_r. Qed.

Lemma add_effects_app (es es' : list (effect Time)) s :
  add_effects es' (add_effects es s) = add_effects (es ++ es') s.
Proof. unfold add_effects. cbn. by rewrite app_assoc. Qed.

(** The calls on one provider: the flush, if there is one, and then, unless
    the flush raised, the shutdown, if there is one. *)
Lemma teardown_provider_run (k : provider_kind) p s :
  teardown_provider k p s
  = let flush := if has_force_flush p then [ProviderCall k force_flush] else [] in
    match (if has_force_flush p then force_flush_outcome p else Return tt) with
    | Raise e => (Raise e, add_effects flush s)
    | Return _ =>
        if has_shutdown p
        then (shutdown_outcome p,
              add_effects (flush ++ [ProviderCall k shutdown]) s)
        else (Return tt, add_effects flush s)
    end.
Proof.
  unfold teardown_provider. rewrite io_bind_run.
  destruct (has_force_flush p); cbn.
  - unfold perform. destruct (force_flush_outcome p) as [[]|e]; [|done].
    destruct (has_shutdown p); [|done].
    unfold add_effect. by rewrite add_effects_app.
  - rewrite add_effects_nil. by destruct (has_shutdown p).
Qed.

Lemma teardown_provider_effects (k : provider_kind) p s :
  ∃ new, (teardown_provider k p s).2 = add_effects new s
         ∧ Forall (λ eff, ∃ m, eff = ProviderCall k m) new.
Proof.
  rewrite teardown_provider_run. cbn.
  destruct (has_force_flush p), (has_shutdown p);
    try destruct (force_flush_outcome p) as [[]|e];
    eexists; (split; [reflexivity|]); repeat constructor; eauto.
Qed.

Lemma teardown_tracer_effects s :
  ∃ new, (teardown_tracer s).2 = add_effects new s
         ∧ Forall (λ eff, ∃ m, eff = ProviderCall tracer m) new.
Proof.
  unfold teardown_tracer.
  destruct (tracing s), (tracer_provider s) as [p|];
    try apply teardown_provider_effects;
    exists []; by rewrite add_effects_nil.
Qed.

Lemma teardown_meter_effects s :
  ∃ new, (teardown_meter s).2 = add_effects new s
         ∧ Forall (λ eff, ∃ m, eff = ProviderCall meter m) new.
Proof.
  unfold teardown_meter.
  destruct (metrics s), (meter_provider s) as [p|];
    try apply teardown_provider_effects;
    exists []; by rewrite add_effects_nil.
Qed.

Lemma provider_calls_only (k : provider_kind) (new : list (effect Time)) :
  Forall (λ eff, ∃ m, eff = ProviderCall k m) new →
  Forall (λ eff, (∃ k m, eff = ProviderCall k m)
                 ∨ ∃ ex, eff = LoggerWarning ex) new.
Proof. intros H. eapply Forall_impl; [exact H|]. intros eff [m ->]. left. eauto. Qed.

(** [_teardown_instrumentation] does nothing but call the providers and
    log. *)
Lemma _teardown_instrumentation_effects s :
  ∃ new,
    (_teardown_instrumentation s).2 = add_effects new s
    ∧ Forall (λ eff, (∃ k m, eff = ProviderCall k m)
                     ∨ ∃ ex, eff = LoggerWarning ex) new.
Proof.
  unfold _teardown_instrumentation, try_except. rewrite io_bind_run.
  destruct (teardown_tracer_effects s) as (new1 & H1 & Hnew1).
  apply provider_calls_only in Hnew1.
  destruct (teardown_tracer s) as [[[]|e1] s1]; cbn in H1; subst s1.
  - destruct (teardown_meter_effects (add_effects new1 s)) as (new2 & H2 & Hnew2).
    apply provider_calls_only in Hnew2.
    destruct (teardown_meter _) as [[[]|e2] s2]; cbn in H2; subst s2;
      rewrite add_effects_app.
    + eexists. split; [done|]. by apply Forall_app.
    + destruct (is_Exception e2) eqn:He2.
      * unfold perform, add_effect. cbn.
        rewrite add_effects_app. eexists. split; [done|].
        rewrite !Forall_app. split_and!; [done | done |].
        apply Forall_singleton. right. eauto.
      * eexists. split; [done|]. by apply Forall_app.
  - destruct (is_Exception e1) eqn:He1.
    + unfold perform, add_effect. cbn.
      rewrite add_effects_app. eexists. split; [done|].
      rewrite Forall_app. split; [done|]. apply Forall_singleton. right. eauto.
    + eexists. by split.
Qed.

(** [_teardown_instrumentation] lets no exception of class [Exception]
    through: whatever the providers' methods raise of that class is logged
    as a warning.  It does nothing but call the providers and log, and it
    changes no attribute of the runtime. *)
Theorem _teardown_instrumentation_swallows s :
  (∀ e, (_teardown_instrumentation s).1 = Raise e → is_Exception e = false)
  ∧ ∃ new,
      (_teardown_instrumentation s).2 = add_effects new s
      ∧ Forall (λ eff, (∃ k m, eff = ProviderCall k m)
                       ∨ ∃ ex, eff = LoggerWarning ex) new.
Proof.
  split; [|apply _teardown_instrumentation_effects].
  unfold _teardown_instrumentation, try_except.
  destruct ((_ ← teardown_tracer; teardown_meter) s) as [[[]|e0] s0]; [done|].
  destruct (is_Exception e0) eqn:He0; [done|]. by intros e [= <-].
Qed.

(** An exception in the teardown of the tracer leaves the meter alone: when
    the flush of the tracer provider raises, neither its shutdown nor any
    method of the meter provider is called, and when its shutdown raises,
    the meter provider is skipped all the same. *)
Theorem _teardown_instrumentation_skips_meter s p (e : exn) :
  tracing s = true →
  tracer_provider s = Some p →
  is_Exception e = true →
  (has_force_flush p = true → force_flush_outcome p = Raise e →
     _teardown_instrumentation s
     = (Return tt,
        add_effects [ProviderCall tracer force_flush; LoggerWarning e] s))
  ∧ (has_force_flush p = false → has_shutdown p = true →
     shutdown_outcome p = Raise e →
     _teardown_instrumentation s
     = (Return tt,
        add_effects [ProviderCall tracer shutdown; LoggerWarning e] s))
  ∧ (has_force_flush p = true → force_flush_outcome p = Return tt →
     has_shutdown p = true → shutdown_outcome p = Raise e →
     _teardown_instrumentation s
     = (Return tt,
        add_effects [ProviderCall tracer force_flush;
                     ProviderCall tracer shutdown; LoggerWarning e] s)).
Proof.
  intros Htr Hp He.
  unfold _teardown_instrumentation, try_except. rewrite io_bind_run.
  unfold teardown_tracer. rewrite Htr, Hp, teardown_provider_run.
  split_and!.
  - intros -> ->. cbn. rewrite He. unfold perform, add_effect. cbn.
    by rewrite add_effects_app.
  - intros -> -> ->. cbn. rewrite He. unfold perform, add_effect. cbn.
    by rewrite add_effects_app.
  - intros -> -> -> ->. cbn. rewrite He. unfold perform, add_effect. cbn.
    by rewrite add_effects_app.
Qed.

(** [teardown] step by step, from the runtime that the teardown of the
    instrumentation leaves. *)
Lemma teardown_run s :
  teardown time_sub uuid1_hex async_teardown base_teardown stop_time s
  = match _teardown_instrumentation s with
    | (Raise e0, s0) => (Raise e0, s0)
    | (Return _, s0) =>
        match async_teardown with
        | Raise e => (Raise e, add_effects [AsyncTeardown] s0)
        | Return _ =>
            match base_teardown with
            | Raise e =>
                (Raise e,
                 add_effects [AsyncTeardown; LoopStop; LoopClose; BaseTeardown] s0)
            | Return _ =>
                let id := default (uuid1_hex (uuid_calls s0)) (_entity_id_ s0) in
                (Return tt,
                 {| tracing := tracing s0;
                    tracer_provider := tracer_provider s0;
                    metrics := metrics s0;
                    meter_provider := meter_provider s0;
                    _start_time := _start_time s0;
                    _stop_time := Some stop_time;
                    _entity_id_ := Some id;
                    uuid_calls := match _entity_id_ s0 with
                                  | Some _ => uuid_calls s0
                                  | None => S (uuid_calls s0)
                                  end;
                    effects :=
                      effects s0
                      ++ [AsyncTeardown; LoopStop; LoopClose; BaseTeardown;
                          Telemetry "stop"
                            (Some (time_sub stop_time (_start_time s0))) id] |})
            end
        end
    end.
Proof.
  unfold teardown. rewrite io_bind_run.
  destruct (_teardown_instrumentation s) as [[[]|e0] s0]; [|done].
  rewrite io_bind_run. unfold perform at 1.
  destruct async_teardown as [[]|e]; [|done].
  repeat (rewrite io_bind_run; unfold perform at 1).
  destruct base_teardown as [[]|e].
  - unfold set_stop_time, io_modify, get_duration, _entity_id, perform,
      add_effect, add_effects, mbind, io_mbind, io_bind'. cbn.
    destruct (_entity_id_ s0); cbn; by rewrite <- ?app_assoc.
  - unfold add_effect. by rewrite !add_effects_app.
Qed.

(** When [async_teardown] raises, [teardown] raises as well and stops there:
    the event loop is neither stopped nor closed, the base class is not torn
    down, the stop time is not set and no telemetry is sent. *)
Theorem teardown_aborted s (e : exn) :
  async_teardown = Raise e →
  ∃ e' new,
    teardown time_sub uuid1_hex async_teardown base_teardown stop_time s
    = (Raise e', add_effects new s)
    ∧ (e' = e ∨ is_Exception e' = false)
    ∧ Forall (λ eff, (∃ k m, eff = ProviderCall k m)
                     ∨ (∃ ex, eff = LoggerWarning ex)
                     ∨ eff = AsyncTeardown) new.
Proof.
  intros Ha. rewrite teardown_run, Ha.
  destruct (_teardown_instrumentation_effects s) as (new & Hs0 & Hnew).
  assert (Hnew' : Forall (λ eff : effect Time,
                    (∃ k m, eff = ProviderCall k m)
                    ∨ (∃ ex, eff = LoggerWarning ex)
                    ∨ eff = AsyncTeardown) new).
  { eapply Forall_impl; [exact Hnew|].
    intros eff [Hcall|Hlog]; [by left | right; by left]. }
  assert (Hexc : ∀ e0, (_teardown_instrumentation s).1 = Raise e0 →
                       is_Exception e0 = false).
  { unfold _teardown_instrumentation, try_except.
    destruct ((_ ← teardown_tracer; teardown_meter) s) as [[[]|e1] s1]; [done|].
    destruct (is_Exception e1) eqn:He1; [done|]. by intros e0 [= <-]. }
  destruct (_teardown_instrumentation s) as [[[]|e0] s0]; cbn in Hs0; subst s0.
  - exists e, (new ++ [AsyncTeardown]). rewrite add_effects_app.
    split_and!; [done | by left |].
    apply Forall_app. split; [done|]. apply Forall_singleton. eauto.
  - exists e0, new. split_and!; [done | right; by apply Hexc | done].
Qed.

(** The stop event of the telemetry carries the entity id of the start
    event: the identifier is made by the first read of [_entity_id] and
    cached, so [teardown] calls [uuid.uuid1] no more; the duration it
    reports is the stop time less the start time. *)
Theorem telemetry_entity_id_stable s :
  let s1 := (_send_telemetry_event uuid1_hex s).2 in
  let s2 := (teardown time_sub uuid1_hex async_teardown base_teardown
               stop_time s1).2 in
  (teardown time_sub uuid1_hex async_teardown base_teardown stop_time s1).1
  = Return tt →
  let id := default (uuid1_hex (uuid_calls s)) (_entity_id_ s) in
  last (effects s1) = Some (Telemetry "start" None id)
  ∧ last (effects s2)
    = Some (Telemetry "stop" (Some (time_sub stop_time (_start_time s))) id)
  ∧ _entity_id_ s2 = Some id
  ∧ uuid_calls s2 = uuid_calls s1
  ∧ (uuid_calls s1 ≤ S (uuid_calls s))%nat.
Proof.
  intros s1 s2 Hret id.
  assert (Hs1 : ∃ n, s1 = {| tracing := tracing s;
                   tracer_provider := tracer_provider s;
                   metrics := metrics s; meter_provider := meter_provider s;
                   _start_time := _start_time s; _stop_time := _stop_time s;
                   _entity_id_ := Some id; uuid_calls := n;
                   effects := effects s ++ [Telemetry "start" None id] |}
                 ∧ (n ≤ S (uuid_calls s))%nat).
  { subst s1 id. unfold _send_telemetry_event. rewrite io_bind_run.
    unfold _entity_id, perform, add_effect, add_effects.
    destruct (_entity_id_ s) as [id0|] eqn:Hid; cbn.
    - exists (uuid_calls s). rewrite Hid. split; [done | lia].
    - exists (S (uuid_calls s)). split; [done | lia]. }
  destruct Hs1 as (n & Hs1 & Hn).
  subst s2. rewrite teardown_run in Hret |- *.
  destruct (_teardown_instrumentation_effects s1) as (new & Hs0 & Hnew).
  destruct (_teardown_instrumentation s1) as [[[]|e0] s0]; [|done].
  cbn in Hs0. subst s0.
  destruct async_teardown as [[]|ea]; [|done].
  destruct base_teardown as [[]|eb]; [|done].
  rewrite Hs1. cbn. rewrite !last_snoc. split_and!; try done.
  by rewrite last_app.
Qed.

End ShellProps.

End LifecycleProps.

(** ** Waiting for a runtime to be ready *)

Module ReadyOrShutdownProps.

Import Runtime RuntimeProps ReadyOrShutdown.

Section WaitProps.

Context {Float : Type}.
Variable Float_bool : Float → bool.
Variable Float_ns : Float → Float.
Variable int_lt_Float : Z → Float → bool.
Variable default_timeout : Float.

Implicit Types (p : probe Float) (probes : list (probe Float)).

(** With [health_check] the answer is that of a single health check with
    the caller's timeout: [True] exactly when it answers [SERVING], [False]
    when it raises [RpcError].  Neither the event nor the clock matters, so
    that a set event does not make the answer [True]. *)
Theorem wait_for_ready_or_shutdown_health_check (timeout : option Float)
    (now : Z) p probes (ctrl_address : string) :
  let answer :=
    wait_for_ready_or_shutdown Float_bool Float_ns int_lt_Float default_timeout
      timeout now (p :: probes) ctrl_address true in
  (answer = Some (Return true)
   ↔ ∃ response,
       send_health_check_sync p ctrl_address timeout = Return response
       ∧ hc_status response = SERVING)
  ∧ (send_health_check_sync p ctrl_address timeout = Raise RpcError →
     answer = Some (Return false))
  ∧ ∀ now' set' probes',
      wait_for_ready_or_shutdown Float_bool Float_ns int_lt_Float
        default_timeout timeout now'
        ({| time_ns := time_ns p; is_set := set';
            send_health_check_sync := send_health_check_sync p |} :: probes')
        ctrl_address true
      = answer.
Proof.
  cbn. unfold is_ready.
  destruct (ready_iff (send_health_check_sync p ctrl_address timeout))
    as [Hiff Hrpc].
  split_and!.
  - rewrite <- Hiff. split; [by intros [= ->] | by intros ->].
  - intros Hsend. by rewrite (Hrpc Hsend).
  - done.
Qed.

(** Without a timeout, be it [None] or zero, the loop never gives up: the
    method does not return [False]. *)
Theorem wait_for_ready_or_shutdown_no_timeout (timeout : option Float)
    (now : Z) probes (ctrl_address : string) :
  (∀ t, timeout = Some t → Float_bool t = false) →
  wait_for_ready_or_shutdown Float_bool Float_ns int_lt_Float default_timeout
    timeout now probes ctrl_address false
  ≠ Some (Return false).
Proof.
  intros Hfalsy.
  assert (Hno : timeout_ns_of Float_bool Float_ns timeout = None).
  { destruct timeout as [t|]; [|done]. cbn. by rewrite (Hfalsy t). }
  unfold wait_for_ready_or_shutdown. rewrite Hno.
  induction probes as [|p probes IH]; [done|]. cbn.
  destruct (is_set p); [done|].
  destruct (is_ready _ _ _) as [[|]|e]; done.
Qed.

Lemma wait_loop_true (timeout_ns : option Float) (now : Z) probes
    (ctrl_address : string) :
  wait_loop int_lt_Float default_timeout timeout_ns now ctrl_address probes
  = Some (Return true)
  ↔ ∃ pre p post,
      probes = pre ++ p :: post
      ∧ Forall (λ q, in_time int_lt_Float timeout_ns now q = true
                     ∧ is_set q = false
                     ∧ is_ready (send_health_check_sync q) ctrl_address
                         (Some default_timeout) = Return false) pre
      ∧ in_time int_lt_Float timeout_ns now p = true
      ∧ (is_set p = true
         ∨ is_ready (send_health_check_sync p) ctrl_address
             (Some default_timeout) = Return true).
Proof.
  induction probes as [|q probes IH]; cbn.
  - split; [done|]. intros (pre & p & post & Heq & _). by destruct pre.
  - destruct (in_time int_lt_Float timeout_ns now q) eqn:Htime.
    + destruct (is_set q) eqn:Hset.
      { split; [|done]. intros _. exists [], q, probes. eauto. }
      destruct (is_ready _ _ _) as [[|]|e] eqn:Hready.
      * split; [|done]. intros _. exists [], q, probes. eauto.
      * rewrite IH. split.
        -- intros (pre & p & post & -> & Hpre & Hp). exists (q :: pre), p, post.
           split_and!; [done | | apply Hp | apply Hp]. by constructor.
        -- intros (pre & p & post & Heq & Hpre & Htp & Hp).
           destruct pre as [|q' pre]; cbn in Heq; simplify_eq.
           { destruct Hp as [?|?]; congruence. }
           apply Forall_cons in Hpre as [_ Hpre]. by exists pre, p, post.
      * split; [done|]. intros (pre & p & post & Heq & Hpre & Htp & Hp).
        destruct pre as [|q' pre]; cbn in Heq; simplify_eq.
        { destruct Hp as [?|?]; congruence. }
        apply Forall_cons in Hpre as [(_ & _ & ?) _]. congruence.
    + split; [done|]. intros (pre & p & post & Heq & Hpre & Htp & Hp).
      destruct pre as [|q' pre]; cbn in Heq; simplify_eq; [congruence|].
      apply Forall_cons in Hpre as [(? & _) _]. congruence.
Qed.

Lemma wait_loop_false (timeout_ns : option Float) (now : Z) probes
    (ctrl_address : string) :
  wait_loop int_lt_Float default_timeout timeout_ns now ctrl_address probes
  = Some (Return false)
  ↔ ∃ pre p post,
      probes = pre ++ p :: post
      ∧ Forall (λ q, in_time int_lt_Float timeout_ns now q = true
                     ∧ is_set q = false
                     ∧ is_ready (send_health_check_sync q) ctrl_address
                         (Some default_timeout) = Return false) pre
      ∧ in_time int_lt_Float timeout_ns now p = false.
Proof.
  induction probes as [|q probes IH]; cbn.
  - split; [done|]. intros (pre & p & post & Heq & _). by destruct pre.
  - destruct (in_time int_lt_Float timeout_ns now q) eqn:Htime.
    + destruct (is_set q) eqn:Hset.
      { split; [done|]. intros (pre & p & post & Heq & Hpre & Htp).
        destruct pre as [|q' pre]; cbn in Heq; simplify_eq; [congruence|].
        apply Forall_cons in Hpre as [(_ & ? & _) _]. congruence. }
      destruct (is_ready _ _ _) as [[|]|e] eqn:Hready.
      * split; [done|]. intros (pre & p & post & Heq & Hpre & Htp).
        destruct pre as [|q' pre]; cbn in Heq; simplify_eq; [congruence|].
        apply Forall_cons in Hpre as [(_ & _ & ?) _]. congruence.
      * rewrite IH. split.
        -- intros (pre & p & post & -> & Hpre & Hp). exists (q :: pre), p, post.
           split_and!; [done | | done]. by constructor.
        -- intros (pre & p & post & Heq & Hpre & Htp).
           destruct pre as [|q' pre]; cbn in Heq; simplify_eq; [congruence|].
           apply Forall_cons in Hpre as [_ Hpre]. by exists pre, p, post.
      * split; [done|]. intros (pre & p & post & Heq & Hpre & Htp).
        destruct pre as [|q' pre]; cbn in Heq; simplify_eq; [congruence|].
        apply Forall_cons in Hpre as [(_ & _ & ?) _]. congruence.
    + split; [|done]. intros _. exists [], q, probes. eauto.
Qed.

(** Without [health_check] the method returns [True] exactly when some
    iteration, reached in time after iterations that found the event unset
    and the runtime not ready, finds the event set or the runtime ready;
    the runtime is not asked when the event is set. *)
Theorem wait_for_ready_or_shutdown_True (timeout : option Float) (now : Z)
    probes (ctrl_address : string) :
  let timeout_ns := timeout_ns_of Float_bool Float_ns timeout in
  wait_for_ready_or_shutdown Float_bool Float_ns int_lt_Float default_timeout
    timeout now probes ctrl_address false = Some (Return true)
  ↔ ∃ pre p post,
      probes = pre ++ p :: post
      ∧ Forall (λ q, in_time int_lt_Float timeout_ns now q = true
                     ∧ is_set q = false
                     ∧ is_ready (send_health_check_sync q) ctrl_address
                         (Some default_timeout) = Return false) pre
      ∧ in_time int_lt_Float timeout_ns now p = true
      ∧ (is_set p = true
         ∨ is_ready (send_health_check_sync p) ctrl_address
             (Some default_timeout) = Return true).
Proof. apply wait_loop_true. Qed.

(** Without [health_check] the method returns [False] exactly when the
    reading of the clock at the start of some iteration is no longer less
    than the timeout after the first reading, every iteration before having
    been in time and having found the event unset and the runtime not
    ready. *)
Theorem wait_for_ready_or_shutdown_False (timeout : option Float) (now : Z)
    probes (ctrl_address : string) :
  wait_for_ready_or_shutdown Float_bool Float_ns int_lt_Float default_timeout
    timeout now probes ctrl_address false = Some (Return false)
  ↔ ∃ t pre p post,
      timeout = Some t ∧ Float_bool t = true
      ∧ probes = pre ++ p :: post
      ∧ Forall (λ q, int_lt_Float (time_ns q - now) (Float_ns t) = true
                     ∧ is_set q = false
                     ∧ is_ready (send_health_check_sync q) ctrl_address
                         (Some default_timeout) = Return false) pre
      ∧ int_lt_Float (time_ns p - now) (Float_ns t) = false.
Proof.
  unfold wait_for_ready_or_shutdown. rewrite wait_loop_false.
  destruct timeout as [t|]; cbn.
  - destruct (Float_bool t) eqn:Ht; cbn.
    + split.
      * intros (pre & p & post & Heq & Hpre & Hp). by exists t, pre, p, post.
      * intros (t' & pre & p & post & [= <-] & _ & Heq & Hpre & Hp).
        by exists pre, p, post.
    + split; [by intros (pre & p & post & _ & _ & ?)|].
      intros (t' & pre & p & post & [= <-] & ? & _). congruence.
  - split; [by intros (pre & p & post & _ & _ & ?)|].
    by intros (t' & pre & p & post & ? & _).
Qed.

End WaitProps.

End ReadyOrShutdownProps.

(** ** The gateway base class *)

Module GatewayProps.

Import Gateway.

Section Registration.

Implicit Types (h : heap) (c b r : nat) (cls : class_object).

(** The heap after a registration that adds the identifier. *)
Lemma register_class_new h c cls r :
  classes h !! c = Some cls →
  getattr_registered_class h cls = Some r →
  cls_id cls ∉ default ∅ (sets h !! r) →
  register_class c h
  = {| classes :=
         <[c := {| __module__ := __module__ cls; __name__ := __name__ cls;
                   mro_tail := mro_tail cls; _registered_class := Some r;
                   wrapped := S (wrapped cls) |}]> (classes h);
       sets := <[r := {[cls_id cls]} ∪ default ∅ (sets h !! r)]> (sets h) |}.
Proof.
  intros Hc Hr Hid. unfold register_class. rewrite Hc, Hr.
  by rewrite decide_False.
Qed.

(** Registering a class again changes nothing, however often it is done:
    its identifier is in the set after the first time, so that [wrap_func]
    is applied to a class at most once. *)
Theorem register_class_idempotent h c (n : nat) :
  Nat.iter (S n) (register_class c) h = register_class c h.
Proof.
  assert (Hidem : register_class c (register_class c h) = register_class c h).
  { unfold register_class at 2 3.
    destruct (classes h !! c) as [cls|] eqn:Hc.
    2:{ unfold register_class. by rewrite Hc. }
    destruct (getattr_registered_class h cls) as [r|] eqn:Hr.
    - destruct (decide (cls_id cls ∈ default ∅ (sets h !! r))) as [Hin|Hnin].
      + unfold register_class. rewrite Hc, Hr. by rewrite decide_True.
      + unfold register_class. cbn [classes sets].
        rewrite lookup_insert_eq. unfold getattr_registered_class at 1.
        cbn [_registered_class]. rewrite lookup_insert_eq. cbn [default].
        rewrite decide_True; [done|]. unfold cls_id. cbn. set_solver.
    - cbn zeta. rewrite lookup_insert_eq. cbn [default].
      rewrite decide_False by set_solver.
      unfold register_class. cbn [classes sets].
      rewrite lookup_insert_eq. unfold getattr_registered_class at 1.
      cbn [_registered_class]. rewrite lookup_insert_eq. cbn [default].
      rewrite decide_True; [done|]. unfold cls_id. cbn. set_solver. }
  induction n as [|n IH]; [done|].
  change (Nat.iter (S (S n)) (register_class c) h)
    with (register_class c (Nat.iter (S n) (register_class c) h)).
  by rewrite IH.
Qed.

End Registration.

Section Sharing.

Implicit Types (h : heap) (c b r : nat) (cls : class_object).

(** After [register_class] the identifier of the class is in the registry
    the class sees, and no other class object has been touched. *)
Theorem register_class_registers h c cls :
  classes h !! c = Some cls →
  cls_id cls ∈ registry (register_class c h) c
  ∧ ∀ d, d ≠ c → classes (register_class c h) !! d = classes h !! d.
Proof.
  intros Hc. unfold register_class. rewrite Hc.
  destruct (getattr_registered_class h cls) as [r|] eqn:Hr.
  - destruct (decide (cls_id cls ∈ default ∅ (sets h !! r))) as [Hin|Hnin].
    + split; [|done]. unfold registry. rewrite Hc. cbn. by rewrite Hr.
    + split.
      * unfold registry. cbn [classes sets]. rewrite lookup_insert_eq. cbn.
        unfold getattr_registered_class. cbn [_registered_class]. cbn.
        rewrite lookup_insert_eq. cbn. set_solver.
      * intros d Hd. cbn [classes]. by rewrite lookup_insert_ne.
  - cbn zeta. rewrite lookup_insert_eq. cbn [default].
    rewrite decide_False by set_solver. split.
    + unfold registry. cbn [classes sets]. rewrite lookup_insert_eq. cbn.
      unfold getattr_registered_class. cbn [_registered_class]. cbn.
      rewrite lookup_insert_eq. cbn. set_solver.
    + intros d Hd. cbn [classes]. by rewrite lookup_insert_ne.
Qed.

(** A class without a registry of its own whose first base in the
    [__mro__] has one registers into the set object of that base: after the
    registration the base sees the identifier of the subclass as well, the
    two classes see the same registry, and the base class has not been
    wrapped again. *)
Theorem register_class_shares_with_base h c b cls base rest :
  classes h !! c = Some cls →
  classes h !! b = Some base →
  c ≠ b →
  _registered_class cls = None →
  mro_tail cls = b :: rest →
  is_Some (_registered_class base) →
  registry (register_class c h) b = {[cls_id cls]} ∪ registry h b
  ∧ registry (register_class c h) c = registry (register_class c h) b
  ∧ classes (register_class c h) !! b = Some base.
Proof.
  intros Hc Hb Hne Hown Hmro [r Hr].
  assert (Hget : getattr_registered_class h cls = Some r).
  { unfold getattr_registered_class. rewrite Hown, Hmro. cbn.
    rewrite Hb. cbn. by rewrite Hr. }
  assert (Hgetb : ∀ h', getattr_registered_class h' base = Some r).
  { intros h'. unfold getattr_registered_class. by rewrite Hr. }
  assert (Hregb : registry h b = default ∅ (sets h !! r)).
  { unfold registry. rewrite Hb. cbn. by rewrite Hgetb. }
  destruct (decide (cls_id cls ∈ default ∅ (sets h !! r))) as [Hin|Hnin].
  - assert (Hsame : register_class c h = h).
    { unfold register_class. rewrite Hc, Hget. by rewrite decide_True. }
    rewrite Hsame. split_and!; [| |done].
    + rewrite Hregb. symmetry. apply subseteq_union_1_L.
      by apply singleton_subseteq_l.
    + rewrite Hregb. unfold registry. rewrite Hc. cbn. by rewrite Hget.
  - rewrite (register_class_new h c cls r Hc Hget Hnin).
    assert (Hb' : registry
      {| classes :=
           <[c := {| __module__ := __module__ cls; __name__ := __name__ cls;
                     mro_tail := mro_tail cls; _registered_class := Some r;
                     wrapped := S (wrapped cls) |}]> (classes h);
         sets := <[r := {[cls_id cls]} ∪ default ∅ (sets h !! r)]> (sets h) |} b
      = {[cls_id cls]} ∪ default ∅ (sets h !! r)).
    { unfold registry. cbn [classes sets].
      rewrite lookup_insert_ne by done. rewrite Hb. cbn.
      rewrite Hgetb. cbn. by rewrite lookup_insert_eq. }
    split_and!.
    + by rewrite Hb', Hregb.
    + rewrite Hb'. unfold registry. cbn [classes sets].
      rewrite lookup_insert_eq. cbn.
      unfold getattr_registered_class. cbn [_registered_class]. cbn.
      by rewrite lookup_insert_eq.
    + cbn [classes]. by rewrite lookup_insert_ne.
Qed.

End Sharing.

Section RuntimeArgs.

Implicit Types (defaults ra : gmap string json).

(** In the runtime arguments of a gateway the caller's value of a name
    wins over the parser's default, which wins over the preset value; the
    seven preset names are always there. *)
Theorem _add_runtime_args_precedence defaults (ra : option (gmap string json))
    (name : string) :
  _add_runtime_args defaults ra !! name
  = match default ∅ ra !! name with
    | Some v => Some v
    | None =>
        match defaults !! name with
        | Some v => Some v
        | None => runtime_set_args !! name
        end
    end
  ∧ Forall (λ preset, is_Some (_add_runtime_args defaults ra !! preset))
      ["tracer_provider"; "grpc_tracing_server_interceptors"; "runtime_name";
       "metrics_registry"; "meter"; "aio_tracing_client_interceptors";
       "tracing_client_interceptor"].
Proof.
  assert (Hl : ∀ n, _add_runtime_args defaults ra !! n
    = match default ∅ ra !! n with
      | Some v => Some v
      | None =>
          match defaults !! n with
          | Some v => Some v
          | None => runtime_set_args !! n
          end
      end).
  { intros n. unfold _add_runtime_args. cbn zeta.
    rewrite !lookup_union.
    destruct (default ∅ ra !! n), (defaults !! n), (runtime_set_args !! n);
      done. }
  split; [apply Hl|].
  repeat (apply Forall_cons; split;
    [rewrite Hl;
     destruct (default ∅ ra !! _); [by eexists|];
     destruct (defaults !! _); [by eexists|];
     by eexists|]).
  apply Forall_nil_2.
Qed.

(** A gateway built with a list of ports among its runtime arguments
    exposes that list as [ports], whatever the parser's default is, and its
    first element as [port]; with an empty list [port] raises
    [IndexError]. *)
Theorem port_of_runtime_args defaults ra (l : list json) :
  ra !! "port" = Some (JList l) →
  ports (_add_runtime_args defaults (Some ra)) = inr (JList l)
  ∧ port (_add_runtime_args defaults (Some ra))
    = match l with
      | p :: _ => inr p
      | [] => inl IndexOutOfRange
      end.
Proof.
  intros Hp.
  assert (Hl : _add_runtime_args defaults (Some ra) !! "port" = Some (JList l)).
  { unfold _add_runtime_args. cbn zeta. cbn [default].
    apply lookup_union_Some_l. exact Hp. }
  unfold port, ports, getattr. rewrite Hl. split; [done|].
  by destruct l.
Qed.

End RuntimeArgs.

End GatewayProps.

(** ** More on readiness and on the end of [run_forever] *)

Module EndOfRunProps.

Import Runtime RuntimeProps.

Section NotReady.

Context {Timeout : Type}.

Lemma not_ready_iff (check : result HealthCheckResponse) :
  (try_ (response ← check;
         mret (ServingStatus_eqb (hc_status response) SERVING))
        is_RpcError (mret false)
   = Return false
   ↔ (∃ response, check = Return response ∧ hc_status response ≠ SERVING)
     ∨ ∃ e, check = Raise e ∧ is_RpcError e = true)
  ∧ (∀ e,
       try_ (response ← check;
             mret (ServingStatus_eqb (hc_status response) SERVING))
            is_RpcError (mret false)
       = Raise e
       ↔ check = Raise e ∧ is_RpcError e = false).
Proof.
  destruct check as [[st]|e0]; cbn.
  - split.
    + split.
      * intros H. left. eexists. split; [done|]. cbn. intros ->. done.
      * intros [(response & [= <-] & Hst)|(e & He & _)]; [|done].
        cbn in Hst. by destruct st.
    + intros e. split; [done|]. by intros [? _].
  - destruct (is_RpcError e0) eqn:He0; cbn.
    + split.
      * split; [|done]. intros _. right. by exists e0.
      * intros e. split; [done|]. intros [[= <-] He]. congruence.
    + split.
      * split; [done|].
        intros [(response & ? & _)|(e & [= <-] & He)]; [done|congruence].
      * intros e. split; [by intros [= <-]|]. by intros [[= <-] _].
Qed.

(** [is_ready] and [async_is_ready] return [False] exactly when the health
    check answers with a status other than [SERVING] or raises an
    [RpcError]; any other exception of the health check is raised to the
    caller, and they raise nothing else. *)
Theorem is_ready_False_or_raises
    (send_health_check_sync send_health_check_async :
       string → Timeout → result HealthCheckResponse)
    (ctrl_address : string) (timeout : Timeout) :
  (is_ready send_health_check_sync ctrl_address timeout = Return false
   ↔ (∃ response,
        send_health_check_sync ctrl_address timeout = Return response
        ∧ hc_status response ≠ SERVING)
     ∨ ∃ e, send_health_check_sync ctrl_address timeout = Raise e
            ∧ is_RpcError e = true)
  ∧ (∀ e, is_ready send_health_check_sync ctrl_address timeout = Raise e
          ↔ send_health_check_sync ctrl_address timeout = Raise e
            ∧ is_RpcError e = false)
  ∧ (async_is_ready send_health_check_async ctrl_address timeout = Return false
     ↔ (∃ response,
          send_health_check_async ctrl_address timeout = Return response
          ∧ hc_status response ≠ SERVING)
       ∨ ∃ e, send_health_check_async ctrl_address timeout = Raise e
              ∧ is_RpcError e = true)
  ∧ (∀ e, async_is_ready send_health_check_async ctrl_address timeout = Raise e
          ↔ send_health_check_async ctrl_address timeout = Raise e
            ∧ is_RpcError e = false).
Proof.
  unfold is_ready, async_is_ready.
  destruct (not_ready_iff (send_health_check_sync ctrl_address timeout))
    as [Hs1 Hs2].
  destruct (not_ready_iff (send_health_check_async ctrl_address timeout))
    as [Ha1 Ha2].
  done.
Qed.

End NotReady.

Section Graceful.

Variable async_run_forever : option nat → coro unit.
Variable async_cancel : result unit.

(** A graceful end: once the cancel event is set, by a signal or by
    [_cancel], with an [async_cancel] that returns and a server that ends
    normally after it has been cancelled, [run_forever] returns, with the
    event set and without a warning in the log. *)
Theorem run_forever_graceful (sched : list occurrence) (self : runtime)
    (t0 : nat) :
  is_cancel (advance sched t0 self) = true →
  async_cancel = Return tt →
  (∀ tb, ∃ ta, async_run_forever (Some tb) = Done ta (Return tt)) →
  ∃ t,
    run_forever async_run_forever async_cancel sched self
    = (Done t (Return tt), advance sched t self)
    ∧ is_cancel (advance sched t self) = true.
Proof.
  intros Hset Hcancel Hserver.
  destruct (_wait_for_cancel_complete async_cancel sched self t0 Hset)
    as (tb & Hw & _).
  destruct (Hserver tb) as [ta Hta].
  exists (Nat.max ta tb). unfold run_forever, _loop_body.
  rewrite Hw, Hcancel. cbn [done_at]. rewrite Hta. cbn [gather]. split; [done|].
  apply (_wait_for_cancel_Done async_cancel) in Hw as [_ Hw].
  apply (advance_mono sched tb); [lia | done].
Qed.

End Graceful.

End EndOfRunProps.

(** ** The properties at the cases *)

Module CasesProps.

Import Streamer Runtime Scenario ExecutorStreamer Lifecycle ReadyOrShutdown
  Gateway Cases.



(** No inputs and no endpoint: nothing is sent, nothing is raised. *)
Lemma post_empty_witness :
  post_requests header_value parameters_value "executor0" ([] : list string)
    2 None None = Return []
  ∧ post header_value parameters_value send_requests_once "executor0" []
      2 None None = Return [].
Proof.
  apply (ExecutorStreamerProps.post_empty header_value parameters_value
           send_requests_once "executor0" 2 None None).
  lia.
Defined.

(** Three documents and no endpoint: the assignment of [None] is what
    [post] raises. *)
Lemma post_assignment_raises_witness :
  post header_value parameters_value send_requests_once "executor0" docs3 2
    None (Some ∅)
  = Raise (TypeError "bad argument type for built-in operation").
Proof.
  apply (ExecutorStreamerProps.post_assignment_raises header_value
           parameters_value send_requests_once "executor0" docs3 2 None
           (Some ∅) (TypeError "bad argument type for built-in operation")).
  - lia.
  - reflexivity.
Defined.

(** The two requests of the three documents are both answered. *)
Lemma post_returns_iff_witness :
  (∃ docs, post header_value parameters_value send_requests_once "executor0"
             docs3 2 (Some "/index"%string) (Some ∅) = Return docs)
  ↔ Forall (λ req, ∃ out, send_requests_once [req] "executor0" true
                            (Some "/index"%string) = Return out) post_reqs.
Proof.
  apply (ExecutorStreamerProps.post_returns_iff header_value parameters_value
           send_requests_once "executor0" docs3 2 (Some "/index"%string)
           (Some ∅) post_reqs).
  reflexivity.
Defined.

(** The gateway of the scenario, asked for results in order. *)
Lemma stream_docs_round_trip_witness :
  ∃ yielded : list (list string),
    stream_docs (Param := string) gateway docs3 2 false None None None true
    = Return (Docs <$> yielded)
    ∧ concat yielded = docs3.
Proof.
  destruct (FacadeProps.stream_docs_round_trip (Param := string) gateway docs3
              2 None None None true)
    as (yielded & Hs & _ & Hord).
  - lia.
  - intros req. reflexivity.
  - intros rs. apply reverse_Permutation.
  - exists yielded. split; [exact Hs|]. by apply Hord.
Defined.

(** Arguments set twice: the child gets a gateway with the one address of
    the second. *)
Lemma _set_env_streamer_args_overwrites_witness :
  ∃ environ1 environ2,
    _set_env_streamer_args Json.dumps kwargs ∅ = Return environ1
    ∧ _set_env_streamer_args Json.dumps kwargs_one environ1 = Return environ2
    ∧ get_streamer Json.loads GatewayStreamer_cls environ2
      = GatewayStreamer_cls kwargs_one.
Proof.
  edestruct (FacadeProps._set_env_streamer_args_overwrites Json.dumps
               Json.loads GatewayStreamer_cls kwargs kwargs_one ∅)
    as (environ1 & environ2 & H1 & H2 & _ & Hget & _).
  - vm_compute. reflexivity.
  - vm_compute. reflexivity.
  - vm_compute. reflexivity.
  - exists environ1, environ2. split_and!; [exact H1 | exact H2 | exact Hget].
Defined.

(** A SIGHUP after three quiet milliseconds. *)
Lemma receive_unhandled_witness :
  receive SIGHUP (advance quiet 3 (Runtime.__init__ None))
  = advance quiet 3 (Runtime.__init__ None).
Proof.
  apply (ShellProps.receive_unhandled SIGHUP None quiet 3).
  unfold HANDLED_SIGNALS. intros H.
  repeat (apply elem_of_cons in H as [H|H]; [discriminate|]).
  by apply elem_of_nil in H.
Defined.

(** The failure of the server after 5 ms is what [run_forever] raises. *)
Lemma run_forever_raises_witness :
  run_forever server_failed (Return tt) quiet (Runtime.__init__ None)
  = (Done 5 (Raise (ValueError "server")),
     advance quiet 5 (Runtime.__init__ None))
  ∧ ValueError "server" ≠ CancelledError.
Proof.
  split; [reflexivity|].
  apply (ShellProps.run_forever_raises server_failed (Return tt) quiet
           (Runtime.__init__ None) 5 (ValueError "server")
           (advance quiet 5 (Runtime.__init__ None))).
  reflexivity.
Defined.

(** A SIGTERM in the fourth millisecond wakes the waiting at 4 ms. *)
Lemma _wait_for_cancel_wakes_witness :
  is_cancel (advance sigterm_at_3 4 (Runtime.__init__ None)) = true
  ∧ ∀ t', (t' < 4)%nat →
      is_cancel (advance sigterm_at_3 t' (Runtime.__init__ None)) = false.
Proof.
  apply (ShellProps._wait_for_cancel_wakes (Return tt) sigterm_at_3
           (Runtime.__init__ None) 4 (Return tt)).
  reflexivity.
Defined.

(** The flush of the tracer provider fails: a warning, and the working
    meter provider is not shut down. *)
Lemma _teardown_instrumentation_skips_meter_witness :
  _teardown_instrumentation instrumented
  = (Return tt,
     add_effects [ProviderCall tracer force_flush;
                  LoggerWarning (ValueError "flush")] instrumented).
Proof.
  destruct (LifecycleProps._teardown_instrumentation_skips_meter instrumented
              failing_tracer (ValueError "flush")) as (Hflush & _).
  - reflexivity.
  - reflexivity.
  - reflexivity.
  - apply Hflush; reflexivity.
Defined.

(** [async_teardown] raises: so does [teardown]. *)
Lemma teardown_aborted_witness :
  ∃ e' new,
    teardown Z.sub uuid1_hex (Raise (ValueError "server")) (Return tt) 160 plain
    = (Raise e', add_effects new plain)
    ∧ (e' = ValueError "server" ∨ is_Exception e' = false).
Proof.
  destruct (LifecycleProps.teardown_aborted Z.sub uuid1_hex
              (Raise (ValueError "server")) (Return tt) 160 plain
              (ValueError "server"))
    as (e' & new & Hrun & He & _).
  - reflexivity.
  - exists e', new. split; [exact Hrun | exact He].
Defined.

(** Start at second 100 and stop at second 160: one identifier, a duration
    of 60 s. *)
Lemma telemetry_entity_id_stable_witness :
  last (effects (teardown Z.sub uuid1_hex (Return tt) (Return tt) 160
                   (_send_telemetry_event uuid1_hex plain).2).2)
  = Some (Telemetry "stop" (Some 60) (uuid1_hex 0)).
Proof.
  destruct (LifecycleProps.telemetry_entity_id_stable Z.sub uuid1_hex
              (Return tt) (Return tt) 160 plain) as (_ & Hstop & _).
  - reflexivity.
  - exact Hstop.
Defined.

(** A timeout of zero seconds: thirty iterations over three seconds do not
    end the waiting. *)
Lemma wait_for_ready_or_shutdown_no_timeout_witness :
  wait_for_ready_or_shutdown Float_bool Float_ns Z.ltb 1 (Some 0) 0
    probes_not_serving "0.0.0.0:8081" false
  ≠ Some (Return false).
Proof.
  apply (ReadyOrShutdownProps.wait_for_ready_or_shutdown_no_timeout Float_bool
           Float_ns Z.ltb 1 (Some 0) 0 probes_not_serving "0.0.0.0:8081").
  intros t [= <-]. reflexivity.
Defined.


(** The subclass registers itself. *)
Lemma register_class_registers_witness :
  cls_id MyGateway ∈ registry (register_class 1 classes_loaded) 1.
Proof.
  destruct (GatewayProps.register_class_registers classes_loaded 1 MyGateway)
    as (Hin & _).
  - reflexivity.
  - exact Hin.
Defined.

(** The subclass lands in the registry of [BaseGateway]. *)
Lemma register_class_shares_with_base_witness :
  registry (register_class 1 classes_loaded) 0
  = {[cls_id MyGateway]} ∪ registry classes_loaded 0.
Proof.
  destruct (GatewayProps.register_class_shares_with_base classes_loaded 1 0
              MyGateway BaseGateway []) as (Hb & _).
  - reflexivity.
  - reflexivity.
  - lia.
  - reflexivity.
  - reflexivity.
  - by eexists.
  - exact Hb.
Defined.

(** The caller's two ports win over the parser's default. *)
Lemma port_of_runtime_args_witness :
  ports (_add_runtime_args parser_defaults (Some runtime_args))
  = inr (JList [JInt 8080; JInt 8081])
  ∧ port (_add_runtime_args parser_defaults (Some runtime_args))
    = inr (JInt 8080).
Proof.
  apply (GatewayProps.port_of_runtime_args parser_defaults runtime_args
           [JInt 8080; JInt 8081]).
  reflexivity.
Defined.

(** A SIGTERM in the fourth millisecond ends a server that stops when it is
    cancelled. *)
Lemma run_forever_graceful_witness :
  ∃ t,
    run_forever server_stopped (Return tt) sigterm_at_3 (Runtime.__init__ None)
    = (Done t (Return tt), advance sigterm_at_3 t (Runtime.__init__ None))
    ∧ is_cancel (advance sigterm_at_3 t (Runtime.__init__ None)) = true.
Proof.
  apply (EndOfRunProps.run_forever_graceful server_stopped (Return tt)
           sigterm_at_3 (Runtime.__init__ None) 4).
  - reflexivity.
  - reflexivity.
  - intros tb. exists tb. reflexivity.
Defined.

End CasesProps.
